(** * Gemini-API: the browser cookie loader

    A shallow embedding of [src/gemini_webapi/utils/load_browser_cookies.py]
    and the properties of [load_browser_cookies].

    The loader calls readers of the [browser_cookie3] package ([bc3] in the
    source).  A reader is foreign code: it is represented by what it does
    when it is called and its result is iterated, namely the cookies it
    yields and how the iteration ends.  The Python dict [cookies] is a
    [gmap string string], the module-level [BROWSER_MAPPING] an association
    list (its iteration order matters), and the two effects of the function,
    calling a reader and writing to the logger, are recorded in a [World]
    that is threaded through the code. *)

From Stdlib Require Import Ascii String.
From stdpp Require Import base option list strings gmap.

Open Scope string_scope.
Open Scope list_scope.

(** ** Cookies, exceptions and readers *)

(** An [http.cookiejar.Cookie]; the loader reads [cookie.name] and
    [cookie.value] only. *)
Record Cookie := mkCookie { name : string; value : string }.

(** The classes the three [except] clauses tell apart.  [BaseOnly] stands
    for the classes that derive from [BaseException] but not from
    [Exception] ([KeyboardInterrupt], [SystemExit], [GeneratorExit]):
    [except Exception] does not catch them. *)
Inductive ExcClass :=
  | BrowserCookieError
  | PermissionError
  | OtherException
  | BaseOnly.

(** An exception object: its class and what [str(e)] does, which the log
    messages interpolate: [__str__] gives a text, or raises an exception of
    its own. *)
Inductive Exc :=
  | mkExc (c : ExcClass) (s : Str)
with Str :=
  | Text (s : string)
  | StrRaises (e : Exc).

Definition exc_class (e : Exc) : ExcClass :=
  match e with mkExc c _ => c end.

Definition exc_str (e : Exc) : Str :=
  match e with mkExc _ s => s end.

(** How the iteration over a reader's result ends. *)
Inductive Finish :=
  | Exhausted
  | Raises (e : Exc).

(** What [cookie_fn(domain_name=...)] does when iterated by a [for] loop:
    the cookies yielded, in order, and then the end of the iteration.  A
    reader that raises when called yields nothing; an exception raised by
    the body of the loop, which reads [cookie.name] and [cookie.value]
    before it stores, ends the iteration in the same way. *)
Record Outcome := mkOutcome { yielded : list Cookie; finish : Finish }.

Module bc3.

(** The ten reader functions of [browser_cookie3] that the module names. *)
Inductive reader :=
  | firefox | chrome | chromium | opera | opera_gx
  | brave | edge | vivaldi | safari | librewolf.

#[global] Instance reader_eq_dec : EqDecision reader.
Proof. solve_decision. Defined.

End bc3.

(** The readers' behaviour, per reader and [domain_name] argument. *)
Definition Readers := bc3.reader → string → Outcome.

(** ** The module *)

Definition BROWSER_MAPPING : list (string * bc3.reader) :=
  [ ("firefox", bc3.firefox);
    ("chrome", bc3.chrome);
    ("chromium", bc3.chromium);
    ("opera", bc3.opera);
    ("opera_gx", bc3.opera_gx);
    ("brave", bc3.brave);
    ("edge", bc3.edge);
    ("vivaldi", bc3.vivaldi);
    ("safari", bc3.safari);
    ("librewolf", bc3.librewolf) ].

(** [BROWSER_MAPPING.keys()] *)
Definition keys (m : list (string * bc3.reader)) : list string := m.*1.

(** [BROWSER_MAPPING[k]], with [None] when [k not in BROWSER_MAPPING]. *)
Fixpoint mapping_get (m : list (string * bc3.reader)) (k : string)
  : option bc3.reader :=
  match m with
  | [] => None
  | (k', fn) :: m' => if decide (k' = k) then Some fn else mapping_get m' k
  end.

(** [str.lower] on the ASCII letters.  Python also lowers letters outside
    ASCII; no such letter becomes an ASCII string except the Kelvin sign,
    which becomes [k], a letter that no key of [BROWSER_MAPPING] has, so
    the lookup of the lowered name is the same. *)
Definition lower_ascii (a : ascii) : ascii :=
  let n := N_of_ascii a in
  if ((65 <=? n) && (n <=? 90))%N then ascii_of_N (n + 32) else a.

Fixpoint lower (s : string) : string :=
  match s with
  | EmptyString => EmptyString
  | String a s' => String (lower_ascii a) (lower s')
  end.

(** [', '.join(l)] *)
Fixpoint join (sep : string) (l : list string) : string :=
  match l with
  | [] => ""
  | [x] => x
  | x :: l' => x +:+ sep +:+ join sep l'
  end.

(** ** Effects *)

Inductive Level := INFO | WARNING | ERROR.

(** The calls made to readers (with their [domain_name] argument) and the
    records handed to the logger, oldest first. *)
Record World := mkWorld {
  calls : list (bc3.reader * string);
  logs : list (Level * string)
}.

Definition call (fn : bc3.reader) (domain_name : string) (w : World) : World :=
  {| calls := calls w ++ [(fn, domain_name)]; logs := logs w |}.

Definition log (lvl : Level) (msg : string) (w : World) : World :=
  {| calls := calls w; logs := logs w ++ [(lvl, msg)] |}.

(** What a Python call does: it returns a value or an exception leaves it. *)
Inductive Result :=
  | Returned (cookies : gmap string string)
  | Propagated (e : Exc).

(** ** load_browser_cookies *)

(** [cookies[cookie.name] = cookie.value] *)
Definition store (cookies : gmap string string) (cookie : Cookie)
  : gmap string string :=
  <[name cookie := value cookie]> cookies.

(** The body of both [try] statements:
    [for cookie in cookie_fn(domain_name=domain_name): cookies[...] = ...].
    The dict is updated in place, so what was stored before an exception
    stays stored. *)
Definition try_body (bc : Readers) (cookie_fn : bc3.reader)
    (domain_name : string) (cookies : gmap string string) (w : World)
  : gmap string string * Finish * World :=
  let o := bc cookie_fn domain_name in
  (foldl store cookies (yielded o), finish o, call cookie_fn domain_name w).

(** The [except] clauses of the branch for one browser.  The result is the
    exception that leaves the [try] statement, if any: one that no clause
    catches, or one that [str(e)] raises while a handler builds its message
    (the message is built before the logger is called, and only when
    [verbose] is true). *)
Definition except_one (verbose : bool) (browser_name : string) (f : Finish)
    (w : World) : option Exc * World :=
  match f with
  | Exhausted => (None, w)
  | Raises e =>
      match exc_class e with
      | BrowserCookieError =>
          (None,
           if verbose then
             log INFO ("No cookies found for " +:+ browser_name +:+
                       " or browser not installed.") w
           else w)
      | PermissionError =>
          if verbose then
            match exc_str e with
            | Text s =>
                (None,
                 log WARNING
                   ("Permission denied while trying to load cookies from "
                    +:+ browser_name +:+ ". " +:+ s) w)
            | StrRaises e' => (Some e', w)
            end
          else (None, w)
      | OtherException =>
          if verbose then
            match exc_str e with
            | Text s =>
                (None,
                 log ERROR
                   ("Error happened while trying to load cookies from "
                    +:+ browser_name +:+ ". " +:+ s) w)
            | StrRaises e' => (Some e', w)
            end
          else (None, w)
      | BaseOnly => (Some e, w)
      end
  end.

(** The [except] clauses inside the loop over all browsers, with the same
    reading of the result. *)
Definition except_all (verbose : bool) (cookie_fn_name : string) (f : Finish)
    (w : World) : option Exc * World :=
  match f with
  | Exhausted => (None, w)
  | Raises e =>
      match exc_class e with
      | BrowserCookieError => (None, w)
      | PermissionError =>
          if verbose then
            match exc_str e with
            | Text s =>
                (None,
                 log WARNING
                   ("Permission denied while trying to load cookies from "
                    +:+ cookie_fn_name +:+ ". " +:+ s) w)
            | StrRaises e' => (Some e', w)
            end
          else (None, w)
      | OtherException =>
          if verbose then
            match exc_str e with
            | Text s =>
                (None,
                 log ERROR
                   ("Error happened while trying to load cookies from "
                    +:+ cookie_fn_name +:+ ". " +:+ s) w)
            | StrRaises e' => (Some e', w)
            end
          else (None, w)
      | BaseOnly => (Some e, w)
      end
  end.

(** [for cookie_fn_name, cookie_fn in items: try: ... except ...], followed
    by [return cookies]. *)
Fixpoint for_browsers (bc : Readers) (domain_name : string) (verbose : bool)
    (items : list (string * bc3.reader)) (cookies : gmap string string)
    (w : World) : Result * World :=
  match items with
  | [] => (Returned cookies, w)
  | (cookie_fn_name, cookie_fn) :: rest =>
      let '(cookies, f, w) := try_body bc cookie_fn domain_name cookies w in
      match except_all verbose cookie_fn_name f w with
      | (None, w) => for_browsers bc domain_name verbose rest cookies w
      | (Some e, w) => (Propagated e, w)
      end
  end.

(** [if browser_name:] is false for [None] and for the empty string. *)
Definition truthy (browser_name : option string) : option string :=
  match browser_name with
  | None => None
  | Some "" => None
  | Some s => Some s
  end.

Definition invalid_name_warning (browser_name : string) : string :=
  "Invalid browser name '" +:+ browser_name +:+ "'. Supported names are: "
  +:+ join ", " (keys BROWSER_MAPPING) +:+ ". " +:+ "No cookies will be loaded.".

Definition load_browser_cookies (bc : Readers) (domain_name : string)
    (verbose : bool) (browser_name : option string) (w : World)
  : Result * World :=
  let cookies : gmap string string := ∅ in
  match truthy browser_name with
  | Some browser_name =>
      let browser_name_lower := lower browser_name in
      match mapping_get BROWSER_MAPPING browser_name_lower with
      | Some cookie_fn =>
          let '(cookies, f, w) := try_body bc cookie_fn domain_name cookies w in
          match except_one verbose browser_name f w with
          | (None, w) => (Returned cookies, w)
          | (Some e, w) => (Propagated e, w)
          end
      | None =>
          (Returned ∅, log WARNING (invalid_name_warning browser_name) w)
      end
  | None => for_browsers bc domain_name verbose BROWSER_MAPPING cookies w
  end.

(** ** Readers as iterators

    The same code with the [for] loop over a reader's result run one
    request at a time.  An iterator is what each successive request for the
    next cookie gives; nothing makes it finite, so the loop takes fuel. *)

Inductive Item :=
  | Yield (cookie : Cookie)
  | Stop
  | Raise (e : Exc).

Definition Iterator := nat → Item.

Definition Iterators := bc3.reader → string → Iterator.

(** [for cookie in it: cookies[cookie.name] = cookie.value], from the
    [i]-th request on. *)
Fixpoint for_cookies (fuel : nat) (it : Iterator) (i : nat)
    (cookies : gmap string string) : option (gmap string string * Finish) :=
  match fuel with
  | O => None
  | S fuel =>
      match it i with
      | Yield cookie => for_cookies fuel it (S i) (store cookies cookie)
      | Stop => Some (cookies, Exhausted)
      | Raise e => Some (cookies, Raises e)
      end
  end.

Definition try_body_it (fuel : nat) (its : Iterators) (cookie_fn : bc3.reader)
    (domain_name : string) (cookies : gmap string string) (w : World)
  : option (gmap string string * Finish * World) :=
  match for_cookies fuel (its cookie_fn domain_name) 0 cookies with
  | Some (cookies, f) => Some (cookies, f, call cookie_fn domain_name w)
  | None => None
  end.

Fixpoint for_browsers_it (fuel : nat) (its : Iterators) (domain_name : string)
    (verbose : bool) (items : list (string * bc3.reader))
    (cookies : gmap string string) (w : World) : option (Result * World) :=
  match items with
  | [] => Some (Returned cookies, w)
  | (cookie_fn_name, cookie_fn) :: rest =>
      match try_body_it fuel its cookie_fn domain_name cookies w with
      | Some (cookies, f, w) =>
          match except_all verbose cookie_fn_name f w with
          | (None, w) =>
              for_browsers_it fuel its domain_name verbose rest cookies w
          | (Some e, w) => Some (Propagated e, w)
          end
      | None => None
      end
  end.

Definition load_browser_cookies_it (fuel : nat) (its : Iterators)
    (domain_name : string) (verbose : bool) (browser_name : option string)
    (w : World) : option (Result * World) :=
  let cookies : gmap string string := ∅ in
  match truthy browser_name with
  | Some browser_name =>
      let browser_name_lower := lower browser_name in
      match mapping_get BROWSER_MAPPING browser_name_lower with
      | Some cookie_fn =>
          match try_body_it fuel its cookie_fn domain_name cookies w with
          | Some (cookies, f, w) =>
              match except_one verbose browser_name f w with
              | (None, w) => Some (Returned cookies, w)
              | (Some e, w) => Some (Propagated e, w)
              end
          | None => None
          end
      | None =>
          Some (Returned ∅, log WARNING (invalid_name_warning browser_name) w)
      end
  | None => for_browsers_it fuel its domain_name verbose BROWSER_MAPPING cookies w
  end.

(** An iterator is finite when some request does not yield a cookie. *)
Definition finite (it : Iterator) : Prop := ∃ n, ∀ c, it n ≠ Yield c.

Definition end_item (f : Finish) : Item :=
  match f with
  | Exhausted => Stop
  | Raises e => Raise e
  end.

(** The iterator [it] behaves as the outcome [o] says. *)
Definition reads (it : Iterator) (o : Outcome) : Prop :=
  (∀ i c, yielded o !! i = Some c → it i = Yield c) ∧
  it (length (yielded o)) = end_item (finish o).

(** ** Notions the properties are stated with *)

(** [str(e)] returns normally where a handler evaluates it: in the
    handlers of [PermissionError] and of [Exception]. *)
Definition str_returns (e : Exc) : Prop :=
  exc_class e = PermissionError ∨ exc_class e = OtherException →
  ∃ s, exc_str e = Text s.

(** The exception that leaves a [try] statement whose body ended with [f]:
    one outside the [Exception] hierarchy, which no clause catches, or, when
    [verbose] is true, what [str(e)] raises in a handler. *)
Definition escapes (verbose : bool) (f : Finish) : option Exc :=
  match f with
  | Exhausted => None
  | Raises e =>
      match exc_class e with
      | BrowserCookieError => None
      | PermissionError | OtherException =>
          if verbose then
            match exc_str e with
            | Text _ => None
            | StrRaises e' => Some e'
            end
          else None
      | BaseOnly => Some e
      end
  end.

(** No reader ends with an exception outside the [Exception] hierarchy. *)
Definition all_caught (bc : Readers) (domain_name : string) : Prop :=
  ∀ fn e, finish (bc fn domain_name) = Raises e → exc_class e ≠ BaseOnly.

(** For every exception a reader ends with, [str(e)] returns normally
    where a handler evaluates it. *)
Definition all_printable (bc : Readers) (domain_name : string) : Prop :=
  ∀ fn e, finish (bc fn domain_name) = Raises e → str_returns e.

(** The cookies yielded during a pass over [items], in the order yielded. *)
Definition all_yields (bc : Readers) (domain_name : string)
    (items : list (string * bc3.reader)) : list Cookie :=
  items ≫= λ kf, yielded (bc kf.2 domain_name).

(** The reader calls of a pass over [items]. *)
Definition invoked (domain_name : string) (items : list (string * bc3.reader))
  : list (bc3.reader * string) :=
  (λ kf, (kf.2, domain_name)) <$> items.

(** The value of the last cookie named [n] in [l]. *)
Fixpoint last_value (n : string) (l : list Cookie) : option string :=
  match l with
  | [] => None
  | c :: l' =>
      match last_value n l' with
      | Some v => Some v
      | None => if decide (name c = n) then Some (value c) else None
      end
  end.

(** The readers a call may invoke. *)
Definition selected (browser_name : option string) (fn : bc3.reader) : Prop :=
  match truthy browser_name with
  | Some s => mapping_get BROWSER_MAPPING (lower s) = Some fn
  | None => True
  end.



(** How many times [fn] was called with [domain_name]. *)
Definition invocations (fn : bc3.reader) (domain_name : string) (w : World)
  : nat :=
  length (filter (λ x, x = (fn, domain_name)) (calls w)).

(** ** Scenarios

    Reader behaviours used to run the code on concrete inputs; the first
    two are the mocks of [tests/test_utils.py]. *)

Definition ok (l : list Cookie) : Outcome := mkOutcome l Exhausted.

Definition fails (c : ExcClass) (msg : string) : Outcome :=
  mkOutcome [] (Raises (mkExc c (Text msg))).

(** [test_load_no_specific_browser_merges_cookies] *)
Definition mock_merges : Readers := λ fn _,
  match fn with
  | bc3.firefox =>
      ok [mkCookie "ANOTHER_COOKIE" "firefox_another_val";
          mkCookie "__Secure-1PSID" "firefox_override_psid"]
  | bc3.chrome =>
      ok [mkCookie "__Secure-1PSID" "chrome_psid";
          mkCookie "OTHER_COOKIE" "chrome_other_val"]
  | bc3.opera => fails BrowserCookieError "Opera error"
  | bc3.safari => fails BrowserCookieError "Safari error"
  | _ => ok []
  end.

(** [test_permission_error_handling] *)
Definition mock_permission : Readers := λ fn _,
  match fn with
  | bc3.chrome => fails PermissionError "Permission denied for Chrome"
  | _ => ok []
  end.

(** Firefox is interrupted from the keyboard while its cookies are read;
    Chrome has a cookie. *)
Definition mock_interrupted : Readers := λ fn _,
  match fn with
  | bc3.firefox => fails BaseOnly "KeyboardInterrupt"
  | bc3.chrome => ok [mkCookie "__Secure-1PSID" "chrome_psid"]
  | _ => ok []
  end.

(** Firefox has a cookie; Chrome's profile is locked, and the
    [PermissionError] it raises has a [__str__] that raises a
    [RuntimeError]. *)
Definition mock_unprintable : Readers := λ fn _,
  match fn with
  | bc3.firefox => ok [mkCookie "SID" "ff_sid"]
  | bc3.chrome =>
      mkOutcome []
        (Raises (mkExc PermissionError
                   (StrRaises (mkExc OtherException (Text "RuntimeError")))))
  | _ => ok []
  end.

(** An outcome as an iterator. *)
Definition iter_of (o : Outcome) : Iterator := λ i,
  match yielded o !! i with
  | Some c => Yield c
  | None => end_item (finish o)
  end.

Definition mock_merges_it : Iterators := λ fn d, iter_of (mock_merges fn d).


Definition w0 : World := mkWorld [] [].

(** The level at which the pass over all browsers reports a reader's
    ending, when it reports it at all. *)
Definition reported_level (f : Finish) : option Level :=
  match f with
  | Exhausted => None
  | Raises e =>
      match exc_class e with
      | PermissionError => Some WARNING
      | OtherException => Some ERROR
      | _ => None
      end
  end.

(** Firefox has cookies, Chrome's profile is locked, Chromium's store is
    broken, Opera is not installed. *)
Definition mock_failures : Readers := λ fn _,
  match fn with
  | bc3.firefox => ok [mkCookie "SID" "ff_sid"; mkCookie "SID" "ff_sid_2"]
  | bc3.chrome => fails PermissionError "locked"
  | bc3.chromium => fails OtherException "database is malformed"
  | bc3.opera => fails BrowserCookieError "Opera error"
  | _ => ok []
  end.

(** Firefox has a cookie, Chrome's profile is locked, and the process is
    told to exit while Chromium is read. *)
Definition mock_exit : Readers := λ fn _,
  match fn with
  | bc3.firefox => ok [mkCookie "SID" "ff_sid"]
  | bc3.chrome => fails PermissionError "locked"
  | bc3.chromium => fails BaseOnly "SystemExit"
  | bc3.opera => ok [mkCookie "SID" "opera_sid"]
  | _ => ok []
  end.

(** * Properties *)

(** ** Lowering names *)

Lemma lower_ascii_idemp a : lower_ascii (lower_ascii a) = lower_ascii a.
Proof. by destruct a as [[] [] [] [] [] [] [] []]. Qed.

Lemma lower_idemp s : lower (lower s) = lower s.
Proof. induction s as [|a s IH]; simpl; [done|]. by rewrite lower_ascii_idemp, IH. Qed.

Lemma lower_empty_inv s : lower s = "" → s = "".
Proof. by destruct s. Qed.

Lemma truthy_Some s : s ≠ "" → truthy (Some s) = Some s.
Proof. by destruct s. Qed.

Lemma truthy_Some_inv bn s : truthy bn = Some s → bn = Some s ∧ s ≠ "".
Proof. destruct bn as [[|a t]|]; simpl; intros [= <-]; done. Qed.

Lemma mapping_get_None m k : mapping_get m k = None ↔ k ∉ keys m.
Proof.
  unfold keys. induction m as [|[k' fn] m IH]; simpl.
  - split; [intros _; apply not_elem_of_nil | done].
  - rewrite not_elem_of_cons. case_decide; intuition congruence.
Qed.

Lemma mapping_get_Some m k fn : mapping_get m k = Some fn → (k, fn) ∈ m.
Proof.
  induction m as [|[k' fn'] m IH]; simpl; [done|].
  case_decide; [intros [= <-]; subst; left | right; auto].
Qed.

(** ** The dict after a run of stores *)

Lemma last_value_app n l1 l2 :
  last_value n (l1 ++ l2) =
  match last_value n l2 with Some v => Some v | None => last_value n l1 end.
Proof.
  induction l1 as [|c l1 IH]; simpl.
  - by destruct (last_value n l2).
  - rewrite IH. by destruct (last_value n l2).
Qed.

Lemma last_value_None n l : last_value n l = None ↔ n ∉ name <$> l.
Proof.
  induction l as [|c l IH]; simpl.
  - split; [intros _; apply not_elem_of_nil | done].
  - rewrite not_elem_of_cons, <- IH.
    destruct (last_value n l); [intuition congruence|].
    case_decide; intuition congruence.
Qed.

Lemma last_value_Some n l v :
  last_value n l = Some v → ∃ c, c ∈ l ∧ name c = n ∧ value c = v.
Proof.
  induction l as [|c l IH]; simpl; [done|].
  destruct (last_value n l) as [v'|].
  - intros [= <-]. destruct IH as (c' & ? & ? & ?); [done|].
    exists c'. split_and!; [by right | done..].
  - case_decide; [|done]. intros [= <-]. exists c. split_and!; [by left | done..].
Qed.

Lemma last_value_elem n l : n ∈ name <$> l → is_Some (last_value n l).
Proof.
  intros Hin. destruct (last_value n l) eqn:E; [by eexists|].
  by apply last_value_None in E.
Qed.

Lemma lookup_foldl_store l (d : gmap string string) n :
  foldl store d l !! n =
  match last_value n l with Some v => Some v | None => d !! n end.
Proof.
  revert d. induction l as [|c l IH]; intros d; simpl; [done|].
  rewrite IH. destruct (last_value n l); [done|]. unfold store.
  case_decide as Hn; [subst; apply lookup_insert_eq | by apply lookup_insert_ne].
Qed.

Lemma foldl_store_app l1 l2 (d : gmap string string) :
  foldl store d (l1 ++ l2) = foldl store (foldl store d l1) l2.
Proof. apply foldl_app. Qed.

(** ** The except clauses *)

Lemma escapes_None verbose f :
  escapes verbose f = None ↔
  ∀ e, f = Raises e →
       exc_class e ≠ BaseOnly ∧ (verbose = true → str_returns e).
Proof.
  destruct f as [|[c m]]; simpl; [done|]. unfold str_returns. split.
  - intros H e [= <-]. simpl.
    destruct c, verbose, m; try done; (split; [done|]);
      intros Hv [Hc|Hc]; try done; eauto.
  - intros H. destruct (H _ eq_refl) as [Hc Hs]. simpl in *.
    destruct c, verbose, m; try done;
      destruct Hs as [s Hs]; try done; eauto.
Qed.

Lemma escapes_verbose f :
  (∀ e, f = Raises e → str_returns e) → escapes true f = escapes false f.
Proof.
  destruct f as [|[c m]]; simpl; [done|]. unfold str_returns.
  intros H. specialize (H _ eq_refl). simpl in H.
  destruct c, m; try done; destruct H as [s Hs]; try done; eauto.
Qed.

Lemma except_all_fst verbose k f w :
  (except_all verbose k f w).1 = escapes verbose f.
Proof. by destruct f as [|[[] []]], verbose. Qed.

Lemma except_one_fst verbose s f w :
  (except_one verbose s f w).1 = escapes verbose f.
Proof. by destruct f as [|[[] []]], verbose. Qed.

Lemma except_all_calls verbose k f w :
  calls (except_all verbose k f w).2 = calls w.
Proof. by destruct f as [|[[] []]], verbose. Qed.

Lemma except_one_calls verbose s f w :
  calls (except_one verbose s f w).2 = calls w.
Proof. by destruct f as [|[[] []]], verbose. Qed.

(** What the loop over all browsers hands to the logger for one reader. *)
Lemma except_all_logs verbose k f w :
  ∃ new, logs (except_all verbose k f w).2 = logs w ++ new ∧
    ∀ lvl msg, (lvl, msg) ∈ new →
      verbose = true ∧ ∃ e, f = Raises e ∧
        (exc_class e = PermissionError ∧ lvl = WARNING ∨
         exc_class e = OtherException ∧ lvl = ERROR).
Proof.
  destruct f as [|[[] []]], verbose; simpl;
    try (exists []; rewrite app_nil_r; split; [done|]; by intros ?? ?%elem_of_nil);
    eexists [_]; (split; [done|]); intros ?? [= -> ->]%list_elem_of_singleton;
    (split; [done|]); eexists; (split; [done|]); simpl; auto.
Qed.


(** ** The pass over the browsers *)

Section Pass.

Variable bc : Readers.
Variable domain_name : string.

(** One turn of the loop, with the handler's result taken apart. *)
Lemma for_browsers_cons verbose k fn rest cookies w :
  for_browsers bc domain_name verbose ((k, fn) :: rest) cookies w =
  let f := finish (bc fn domain_name) in
  let w1 := (except_all verbose k f (call fn domain_name w)).2 in
  match escapes verbose f with
  | None =>
      for_browsers bc domain_name verbose rest
        (foldl store cookies (yielded (bc fn domain_name))) w1
  | Some e => (Propagated e, w1)
  end.
Proof.
  simpl. rewrite <- (except_all_fst verbose k _ (call fn domain_name w)).
  by destruct (except_all _ _ _ _) as [[e|] w1].
Qed.

(** The result does not depend on the world. *)
Lemma for_browsers_result verbose items cookies w1 w2 :
  (for_browsers bc domain_name verbose items cookies w1).1 =
  (for_browsers bc domain_name verbose items cookies w2).1.
Proof.
  revert cookies w1 w2.
  induction items as [|[k fn] rest IH]; intros cookies w1 w2; [done|].
  rewrite !for_browsers_cons; simpl.
  destruct (escapes _ _); [done | apply IH].
Qed.

(** Nor do the reader calls depend on the log. *)
Lemma for_browsers_calls verbose items cookies w1 w2 :
  calls w1 = calls w2 →
  calls (for_browsers bc domain_name verbose items cookies w1).2 =
  calls (for_browsers bc domain_name verbose items cookies w2).2.
Proof.
  revert cookies w1 w2.
  induction items as [|[k fn] rest IH]; intros cookies w1 w2 Hc; [done|].
  rewrite !for_browsers_cons; simpl.
  assert (calls (except_all verbose k (finish (bc fn domain_name))
                   (call fn domain_name w1)).2 =
          calls (except_all verbose k (finish (bc fn domain_name))
                   (call fn domain_name w2)).2) as Hc'.
  { rewrite !except_all_calls. simpl. by rewrite Hc. }
  destruct (escapes _ _); [done | by apply IH].
Qed.

(** When [str(e)] returns wherever a handler evaluates it, [verbose] changes
    neither the result nor the reader calls. *)
Lemma for_browsers_verbose items cookies w1 w2 :
  Forall (λ kf, ∀ e, finish (bc kf.2 domain_name) = Raises e → str_returns e)
         items →
  calls w1 = calls w2 →
  (for_browsers bc domain_name true items cookies w1).1 =
  (for_browsers bc domain_name false items cookies w2).1 ∧
  calls (for_browsers bc domain_name true items cookies w1).2 =
  calls (for_browsers bc domain_name false items cookies w2).2.
Proof.
  revert cookies w1 w2.
  induction items as [|[k fn] rest IH]; intros cookies w1 w2 Hall Hc; [done|].
  apply Forall_cons in Hall as [Hfn Hrest]. simpl in Hfn.
  rewrite !for_browsers_cons; simpl. rewrite (escapes_verbose _ Hfn).
  assert (calls (except_all true k (finish (bc fn domain_name))
                   (call fn domain_name w1)).2 =
          calls (except_all false k (finish (bc fn domain_name))
                   (call fn domain_name w2)).2) as Hc'.
  { rewrite !except_all_calls. simpl. by rewrite Hc. }
  destruct (escapes _ _); [done | by apply IH].
Qed.

(** When no exception leaves the loop, the pass calls every reader of
    [items] in order, stores everything they yield, and returns. *)
Lemma for_browsers_caught verbose items cookies w :
  Forall (λ kf, escapes verbose (finish (bc kf.2 domain_name)) = None) items →
  ∃ w' new,
    for_browsers bc domain_name verbose items cookies w =
      (Returned (foldl store cookies (all_yields bc domain_name items)), w') ∧
    calls w' = calls w ++ invoked domain_name items ∧
    logs w' = logs w ++ new ∧
    ∀ lvl msg, (lvl, msg) ∈ new →
      verbose = true ∧
      ∃ k fn e, (k, fn) ∈ items ∧ finish (bc fn domain_name) = Raises e ∧
        (exc_class e = PermissionError ∧ lvl = WARNING ∨
         exc_class e = OtherException ∧ lvl = ERROR).
Proof.
  revert cookies w.
  induction items as [|[k fn] rest IH]; intros cookies w Hall.
  - exists w, []. rewrite !app_nil_r. split_and!; [done..|].
    by intros ?? ?%elem_of_nil.
  - apply Forall_cons in Hall as [Hfn Hrest]. simpl in Hfn.
    rewrite for_browsers_cons; simpl. rewrite Hfn.
    set (w1 := (except_all verbose k _ (call fn domain_name w)).2).
    destruct (IH (foldl store cookies (yielded (bc fn domain_name))) w1 Hrest)
      as (w' & new & Hrun & Hcalls & Hlogs & Hnew).
    destruct (except_all_logs verbose k (finish (bc fn domain_name))
                (call fn domain_name w)) as (new1 & Hlogs1 & Hnew1).
    exists w', (new1 ++ new). split_and!.
    + rewrite Hrun. unfold all_yields. simpl. by rewrite foldl_store_app.
    + rewrite Hcalls. unfold w1. rewrite except_all_calls. simpl.
      by rewrite <- app_assoc.
    + rewrite Hlogs. unfold w1. rewrite Hlogs1. simpl. by rewrite <- app_assoc.
    + intros lvl msg [Hin|Hin]%elem_of_app.
      * destruct (Hnew1 _ _ Hin) as (Hv & e & He & Hcls).
        split; [done|]. exists k, fn, e. split_and!; [by left | done..].
      * destruct (Hnew _ _ Hin) as (Hv & k' & fn' & e & Hkf & He & Hcls).
        split; [done|]. exists k', fn', e. split_and!; [by right | done..].
Qed.

(** A pass that returns let no exception out. *)
Lemma for_browsers_Returned verbose items cookies w d w' :
  for_browsers bc domain_name verbose items cookies w = (Returned d, w') →
  Forall (λ kf, escapes verbose (finish (bc kf.2 domain_name)) = None) items.
Proof.
  revert cookies w.
  induction items as [|[k fn] rest IH]; intros cookies w; [by constructor|].
  rewrite for_browsers_cons; simpl.
  destruct (escapes _ _) eqn:Hu; [done|]. intros Hrun.
  constructor; [done | by eapply IH].
Qed.

(** A pass stops at the first exception that leaves the loop. *)
Lemma for_browsers_escape verbose pre k fn post e :
  ∀ cookies w,
    Forall (λ kf, escapes verbose (finish (bc kf.2 domain_name)) = None) pre →
    escapes verbose (finish (bc fn domain_name)) = Some e →
    ∃ w', for_browsers bc domain_name verbose (pre ++ (k, fn) :: post) cookies w
            = (Propagated e, w') ∧
          calls w' = calls w ++ invoked domain_name (pre ++ [(k, fn)]).
Proof.
  induction pre as [|[k0 fn0] pre IH]; intros cookies w Hpre Hfn.
  - simpl app. rewrite for_browsers_cons. simpl. rewrite Hfn.
    eexists. split; [done|]. by rewrite except_all_calls.
  - apply Forall_cons in Hpre as [H0 Hpre]. simpl in H0.
    change (((k0, fn0) :: pre) ++ (k, fn) :: post)
      with ((k0, fn0) :: (pre ++ (k, fn) :: post)).
    rewrite for_browsers_cons. simpl. rewrite H0.
    destruct (IH (foldl store cookies (yielded (bc fn0 domain_name)))
                (except_all verbose k0 (finish (bc fn0 domain_name))
                   (call fn0 domain_name w)).2 Hpre Hfn) as (w' & -> & Hc).
    exists w'. split; [done|]. rewrite Hc, except_all_calls. simpl.
    by rewrite <- app_assoc.
Qed.

Lemma all_caught_Forall verbose (items : list (string * bc3.reader)) :
  all_caught bc domain_name →
  (verbose = true → all_printable bc domain_name) →
  Forall (λ kf, escapes verbose (finish (bc kf.2 domain_name)) = None) items.
Proof.
  intros Hall Hstr. apply Forall_forall. intros [k fn] _. simpl.
  apply escapes_None. intros e He. split; [by apply (Hall fn)|].
  intros Hv. by apply (Hstr Hv fn).
Qed.

Lemma all_yields_app items1 items2 :
  all_yields bc domain_name (items1 ++ items2) =
  all_yields bc domain_name items1 ++ all_yields bc domain_name items2.
Proof. unfold all_yields. apply bind_app. Qed.

Lemma all_yields_names n items :
  n ∉ name <$> all_yields bc domain_name items ↔
  ∀ k fn, (k, fn) ∈ items → n ∉ name <$> yielded (bc fn domain_name).
Proof.
  unfold all_yields. induction items as [|[k fn] rest IH]; simpl.
  - split; [by intros _ ?? ?%elem_of_nil | intros _; apply not_elem_of_nil].
  - rewrite fmap_app, not_elem_of_app, IH. split.
    + intros [H1 H2] k' fn' [[= -> ->]|Hin]%elem_of_cons; [done | eauto].
    + intros H. split; [apply (H k); by left | intros ???; apply (H k0); by right].
Qed.

Lemma all_yields_elem c items :
  c ∈ all_yields bc domain_name items →
  ∃ k fn, (k, fn) ∈ items ∧ c ∈ yielded (bc fn domain_name).
Proof.
  unfold all_yields. intros ([k fn] & Hc & Hin)%list_elem_of_bind.
  by exists k, fn.
Qed.

End Pass.

(** ** The two modes *)

Section Modes.

Variable bc : Readers.
Variable domain_name : string.

Lemma load_all verbose browser_name w :
  truthy browser_name = None →
  load_browser_cookies bc domain_name verbose browser_name w =
  for_browsers bc domain_name verbose BROWSER_MAPPING ∅ w.
Proof. unfold load_browser_cookies. by intros ->. Qed.

Lemma load_one verbose browser_name s fn w :
  truthy browser_name = Some s →
  mapping_get BROWSER_MAPPING (lower s) = Some fn →
  load_browser_cookies bc domain_name verbose browser_name w =
  let f := finish (bc fn domain_name) in
  (match escapes verbose f with
   | None => Returned (foldl store ∅ (yielded (bc fn domain_name)))
   | Some e => Propagated e
   end,
   (except_one verbose s f (call fn domain_name w)).2).
Proof.
  unfold load_browser_cookies. intros -> ->. simpl.
  rewrite <- (except_one_fst verbose s _ (call fn domain_name w)).
  by destruct (except_one _ _ _ _) as [[e|] w1].
Qed.

Lemma load_invalid verbose browser_name s w :
  truthy browser_name = Some s →
  mapping_get BROWSER_MAPPING (lower s) = None →
  load_browser_cookies bc domain_name verbose browser_name w =
  (Returned ∅, log WARNING (invalid_name_warning s) w).
Proof. unfold load_browser_cookies. by intros -> ->. Qed.

(** In the mode for all browsers a returned dict holds, for each name,
    the value stored last during the pass. *)
Lemma load_all_Returned verbose browser_name w d :
  truthy browser_name = None →
  (load_browser_cookies bc domain_name verbose browser_name w).1 = Returned d →
  d = foldl store ∅ (all_yields bc domain_name BROWSER_MAPPING).
Proof.
  intros Hb. rewrite (load_all _ _ _ Hb).
  destruct (for_browsers _ _ _ _ _ _) as [r w'] eqn:Hrun. simpl. intros ->.
  apply for_browsers_Returned in Hrun as Hall.
  destruct (for_browsers_caught bc domain_name verbose _ ∅ w Hall)
    as (w'' & new & Hrun' & _).
  rewrite Hrun in Hrun'. by injection Hrun' as -> _.
Qed.

(** The last reader of [items] that yields [n] decides the last value. *)
Lemma last_value_all_yields items pre k fn post n :
  items = pre ++ (k, fn) :: post →
  n ∈ name <$> yielded (bc fn domain_name) →
  (∀ k' fn', (k', fn') ∈ post → n ∉ name <$> yielded (bc fn' domain_name)) →
  last_value n (all_yields bc domain_name items) =
  last_value n (yielded (bc fn domain_name)).
Proof.
  intros -> Hin Hpost.
  rewrite all_yields_app, last_value_app.
  change ((k, fn) :: post) with ([(k, fn)] ++ post).
  rewrite all_yields_app, last_value_app.
  apply all_yields_names, last_value_None in Hpost. rewrite Hpost.
  unfold all_yields; simpl. rewrite app_nil_r.
  by destruct (last_value_elem _ _ Hin) as [v ->].
Qed.

(** Whether the call returns is decided by what leaves the [try]
    statements of the readers it may invoke. *)
Lemma load_returns verbose browser_name w :
  (∀ fn e, selected browser_name fn →
     finish (bc fn domain_name) = Raises e →
     exc_class e ≠ BaseOnly ∧ (verbose = true → str_returns e)) →
  ∃ d, (load_browser_cookies bc domain_name verbose browser_name w).1
         = Returned d.
Proof.
  unfold selected. intros Hall. destruct (truthy browser_name) as [s|] eqn:Hb.
  - destruct (mapping_get BROWSER_MAPPING (lower s)) as [fn|] eqn:Hget.
    + rewrite (load_one _ _ _ _ _ Hb Hget). simpl.
      assert (escapes verbose (finish (bc fn domain_name)) = None) as ->;
        [|by eexists].
      apply escapes_None. intros e. by apply Hall.
    + rewrite (load_invalid _ _ _ _ Hb Hget). by eexists.
  - rewrite (load_all _ _ _ Hb).
    destruct (for_browsers_caught bc domain_name verbose BROWSER_MAPPING ∅ w)
      as (w' & new & -> & _); [|by eexists].
    apply Forall_forall. intros [k fn] _. simpl. apply escapes_None.
    intros e. by apply Hall.
Qed.

End Modes.

(** ** Collisions between browsers *)

(** C1.  In the mode for all browsers ([browser_name = None]), when a call
    returns the dict [d] and [fn] is the last reader in the order of
    [BROWSER_MAPPING] that yields a cookie named [n] (the readers in [post]
    come later and yield none), [d] maps [n] to the value [fn] yielded for it
    (to the last one, should [fn] yield the name more than once).  This is
    the rule for a name yielded by several readers, where the later one wins,
    and for a name yielded by one reader only. *)
Theorem later_browser_wins (bc : Readers) (domain_name : string)
    (verbose : bool) (w : World) (d : gmap string string)
    (pre post : list (string * bc3.reader)) (k : string) (fn : bc3.reader)
    (n : string) :
  (load_browser_cookies bc domain_name verbose None w).1 = Returned d →
  BROWSER_MAPPING = pre ++ (k, fn) :: post →
  n ∈ name <$> yielded (bc fn domain_name) →
  (∀ k' fn', (k', fn') ∈ post → n ∉ name <$> yielded (bc fn' domain_name)) →
  d !! n = last_value n (yielded (bc fn domain_name)) ∧
  ∃ c, c ∈ yielded (bc fn domain_name) ∧ name c = n ∧ d !! n = Some (value c).
Proof.
  intros Hrun Hsplit Hin Hpost.
  apply load_all_Returned in Hrun as ->; [|done].
  assert (foldl store ∅ (all_yields bc domain_name BROWSER_MAPPING) !! n =
          last_value n (yielded (bc fn domain_name))) as Hd.
  { rewrite lookup_foldl_store.
    rewrite (last_value_all_yields bc domain_name _ _ _ _ _ _ Hsplit Hin Hpost).
    by destruct (last_value_elem _ _ Hin) as [v ->]. }
  split; [done|]. rewrite Hd.
  destruct (last_value_elem _ _ Hin) as [v Hv]. rewrite Hv.
  apply last_value_Some in Hv as (c & ? & ? & <-). by exists c.
Qed.

(** The mocks of [test_load_no_specific_browser_merges_cookies]: Firefox and
    Chrome both yield [__Secure-1PSID], Chrome comes later and wins. *)
Lemma later_browser_wins_witness :
  ∃ d, (load_browser_cookies mock_merges "google.com" false None w0).1
         = Returned d ∧
       d !! "__Secure-1PSID" = Some "chrome_psid".
Proof.
  assert ("__Secure-1PSID"
            ∈ name <$> yielded (mock_merges bc3.chrome "google.com")) as Hin.
  { simpl. apply list_elem_of_here. }
  assert (∀ k' fn', (k', fn') ∈ drop 2 BROWSER_MAPPING →
            "__Secure-1PSID" ∉ name <$> yielded (mock_merges fn' "google.com"))
    as Hpost.
  { intros k' fn' Hkf. simpl in Hkf.
    repeat (apply elem_of_cons in Hkf as [[= -> ->]|Hkf]);
      try (simpl; apply not_elem_of_nil).
    by apply elem_of_nil in Hkf. }
  eexists. split; [vm_compute; reflexivity|].
  exact (proj1 (later_browser_wins mock_merges "google.com" false w0 _
                  [("firefox", bc3.firefox)] (drop 2 BROWSER_MAPPING)
                  "chrome" bc3.chrome "__Secure-1PSID"
                  eq_refl eq_refl Hin Hpost)).
Defined.

(** ** Failing readers *)

Lemma escapes_BaseOnly verbose e :
  exc_class e = BaseOnly → escapes verbose (Raises e) = Some e.
Proof. destruct e as [c m]. simpl. by intros ->. Qed.


(** C2, as the code has it.  In the mode for all browsers, when the readers
    that fail raise [BrowserCookieError], [PermissionError] or another
    [Exception], and, should [verbose] be true, [str(e)] returns normally
    for the exceptions whose handlers evaluate it, the call returns a dict,
    every reader of [BROWSER_MAPPING] has been called, and for every reader
    [fn] that succeeded and every cookie [c] it yielded, the dict has the
    key [name c]; it maps it to [value c] unless the same name is yielded
    again later, by [fn] itself (in [y2]) or by a reader after it (in
    [post]). *)
Theorem partial_failure_tolerated (bc : Readers) (domain_name : string)
    (verbose : bool) (w : World) :
  (∀ fn e, finish (bc fn domain_name) = Raises e →
     exc_class e = BrowserCookieError ∨ exc_class e = PermissionError ∨
     exc_class e = OtherException) →
  (verbose = true → all_printable bc domain_name) →
  ∃ d w',
    load_browser_cookies bc domain_name verbose None w = (Returned d, w') ∧
    calls w' = calls w ++ invoked domain_name BROWSER_MAPPING ∧
    ∀ pre k fn post y1 c y2,
      BROWSER_MAPPING = pre ++ (k, fn) :: post →
      finish (bc fn domain_name) = Exhausted →
      yielded (bc fn domain_name) = y1 ++ c :: y2 →
      is_Some (d !! name c) ∧
      (name c ∉ name <$> y2 →
       (∀ k' fn', (k', fn') ∈ post →
          name c ∉ name <$> yielded (bc fn' domain_name)) →
       d !! name c = Some (value c)).
Proof.
  intros Hexc Hstr.
  assert (all_caught bc domain_name) as Hall.
  { intros fn e He. destruct (Hexc fn e He) as [->|[->| ->]]; done. }
  destruct (for_browsers_caught bc domain_name verbose BROWSER_MAPPING ∅ w
              (all_caught_Forall _ _ _ _ Hall Hstr))
    as (w' & new & Hrun & Hcalls & _).
  eexists _, w'. split_and!; [by rewrite load_all | done |].
  intros pre k fn post y1 c y2 Hsplit _ Hy.
  assert (name c ∈ name <$> yielded (bc fn domain_name)) as Hin.
  { rewrite Hy, fmap_app, fmap_cons. apply elem_of_app. right. by left. }
  split.
  - rewrite lookup_foldl_store.
    assert (is_Some (last_value (name c)
                       (all_yields bc domain_name BROWSER_MAPPING))) as [v ->];
      [|by eexists].
    apply last_value_elem. rewrite Hsplit, all_yields_app, fmap_app.
    apply elem_of_app. right. unfold all_yields. simpl.
    rewrite fmap_app. apply elem_of_app. by left.
  - intros Hy2 Hpost. rewrite lookup_foldl_store.
    rewrite (last_value_all_yields bc domain_name _ _ _ _ _ _ Hsplit Hin Hpost).
    rewrite Hy, last_value_app. simpl.
    apply last_value_None in Hy2. rewrite Hy2. by rewrite decide_True.
Qed.

Lemma mock_merges_printable : all_printable mock_merges "google.com".
Proof.
  intros fn e. destruct fn; simpl; intros [= <-]; intros [?|?]; done.
Defined.

(** The mocks of [test_load_no_specific_browser_merges_cookies]: Opera and
    Safari fail, the cookie Firefox alone yields is in the dict. *)
Lemma partial_failure_tolerated_witness :
  ∃ d w',
    load_browser_cookies mock_merges "google.com" true None w0
      = (Returned d, w') ∧
    calls w' = invoked "google.com" BROWSER_MAPPING ∧
    d !! "ANOTHER_COOKIE" = Some "firefox_another_val".
Proof.
  assert (∀ fn e, finish (mock_merges fn "google.com") = Raises e →
            exc_class e = BrowserCookieError ∨ exc_class e = PermissionError ∨
            exc_class e = OtherException) as Hexc.
  { intros fn e. destruct fn; simpl; intros [= <-]; by left. }
  destruct (partial_failure_tolerated mock_merges "google.com" true w0 Hexc
              (λ _, mock_merges_printable))
    as (d & w' & Hrun & Hcalls & Hd).
  exists d, w'. split_and!; [done..|].
  refine (proj2 (Hd [] "firefox" bc3.firefox (tail BROWSER_MAPPING) []
                   (mkCookie "ANOTHER_COOKIE" "firefox_another_val")
                   [mkCookie "__Secure-1PSID" "firefox_override_psid"]
                   eq_refl eq_refl eq_refl) _ _).
  - simpl. by intros [=]%list_elem_of_singleton.
  - intros k' fn' Hin. simpl in Hin.
    repeat (apply elem_of_cons in Hin as [[= -> ->]|Hin]);
      try (simpl; apply not_elem_of_nil).
    + simpl. intros Hc. by repeat (apply elem_of_cons in Hc as [[=]|Hc]);
        apply elem_of_nil in Hc.
    + by apply elem_of_nil in Hin.
Defined.

(** C2 as stated fails: Chrome's profile is locked and the
    [PermissionError] it raises has a [__str__] that raises.  With [verbose]
    true the handler evaluates [str(e)] to build its message, what that
    raises leaves the loop, and the call ends after two readers without
    returning the cookie that Firefox, which succeeded, yielded. *)
Lemma partial_failure_tolerated_counterexample :
  (∀ fn e, finish (mock_unprintable fn "google.com") = Raises e →
     exc_class e = PermissionError) ∧
  load_browser_cookies mock_unprintable "google.com" true None w0 =
    (Propagated (mkExc OtherException (Text "RuntimeError")),
     {| calls := [(bc3.firefox, "google.com"); (bc3.chrome, "google.com")];
        logs := [] |}) ∧
  ¬ ∀ (bc : Readers) domain_name verbose w,
      (∀ fn e, finish (bc fn domain_name) = Raises e →
         exc_class e = BrowserCookieError ∨ exc_class e = PermissionError ∨
         exc_class e = OtherException) →
      ∃ d w',
        load_browser_cookies bc domain_name verbose None w = (Returned d, w').
Proof.
  assert (∀ fn e, finish (mock_unprintable fn "google.com") = Raises e →
            exc_class e = PermissionError) as Hcls.
  { intros fn e. destruct fn; simpl; intros [= <-]; done. }
  split_and!; [done..|]. intros H.
  destruct (H mock_unprintable "google.com" true w0) as (d & w' & Hd); [|done].
  intros fn e He. right. left. by apply (Hcls fn).
Qed.




(** ** The readers called *)

Lemma invocations_app fn domain_name w (l : list (bc3.reader * string)) w' :
  calls w' = calls w ++ l →
  invocations fn domain_name w' =
  invocations fn domain_name w + length (filter (λ x, x = (fn, domain_name)) l).
Proof. unfold invocations. intros ->. by rewrite filter_app, length_app. Qed.

Lemma invoked_count fn domain_name items :
  length (filter (λ x, x = (fn, domain_name)) (invoked domain_name items)) =
  length (filter (λ kf : string * bc3.reader, kf.2 = fn) items).
Proof.
  unfold invoked. induction items as [|[k fn'] rest IH]; [done|].
  rewrite fmap_cons, !filter_cons. simpl.
  destruct (decide (fn' = fn)) as [->|Hne].
  - rewrite decide_True by done. simpl. by rewrite IH.
  - rewrite decide_False by congruence. done.
Qed.

(** C4, as the code has it.  [BROWSER_MAPPING] has exactly the ten names,
    bound to the ten readers, and in the mode for all browsers, when no
    reader raises outside the [Exception] hierarchy and, should [verbose] be
    true, [str(e)] returns normally for the exceptions whose handlers
    evaluate it, the call invokes the ten readers in that order, each
    exactly once and each with the caller's [domain_name]. *)
Theorem every_reader_called_once (bc : Readers) (domain_name : string)
    (verbose : bool) (w : World) :
  all_caught bc domain_name →
  (verbose = true → all_printable bc domain_name) →
  keys BROWSER_MAPPING =
    ["firefox"; "chrome"; "chromium"; "opera"; "opera_gx";
     "brave"; "edge"; "vivaldi"; "safari"; "librewolf"] ∧
  length BROWSER_MAPPING = 10 ∧
  let w' := (load_browser_cookies bc domain_name verbose None w).2 in
  calls w' =
    calls w ++
    [(bc3.firefox, domain_name); (bc3.chrome, domain_name);
     (bc3.chromium, domain_name); (bc3.opera, domain_name);
     (bc3.opera_gx, domain_name); (bc3.brave, domain_name);
     (bc3.edge, domain_name); (bc3.vivaldi, domain_name);
     (bc3.safari, domain_name); (bc3.librewolf, domain_name)] ∧
  ∀ fn, invocations fn domain_name w' = S (invocations fn domain_name w).
Proof.
  intros Hall Hstr.
  destruct (for_browsers_caught bc domain_name verbose BROWSER_MAPPING ∅ w
              (all_caught_Forall _ _ _ _ Hall Hstr))
    as (w1 & new & Hrun & Hcalls & _).
  split; [done|]. split; [done|]. cbv zeta.
  rewrite load_all by done. rewrite Hrun. simpl. split; [done|].
  intros fn. rewrite (invocations_app _ _ _ _ _ Hcalls), invoked_count.
  destruct fn; simpl; lia.
Qed.

(** The mocks of [test_load_no_specific_browser_tries_all_mapped] and of its
    sibling: every reader is called once, the failing ones included. *)
Lemma every_reader_called_once_witness :
  invocations bc3.safari "google.com"
    (load_browser_cookies mock_merges "google.com" false None w0).2 = 1.
Proof.
  assert (all_caught mock_merges "google.com") as Hall.
  { intros fn e. destruct fn; simpl; intros [= <-]; done. }
  exact (proj2 (proj2 (proj2
    (every_reader_called_once mock_merges "google.com" false w0 Hall
       (λ _, mock_merges_printable))))
    bc3.safari).
Defined.

(** C4 as stated fails, in two ways.  When Firefox, the first reader, is
    interrupted from the keyboard, the exception leaves the loop and Chrome
    and the readers after it are never called.  And when the
    [PermissionError] of Chrome has a [__str__] that raises and [verbose] is
    true, what the handler raises leaves the loop and Chromium and the
    readers after it are never called. *)
Lemma every_reader_called_once_counterexample :
  let w' := (load_browser_cookies mock_interrupted "google.com" true None w0).2 in
  let w'' := (load_browser_cookies mock_unprintable "google.com" true None w0).2 in
  calls w' = [(bc3.firefox, "google.com")] ∧
  invocations bc3.chrome "google.com" w' = 0 ∧
  calls w'' = [(bc3.firefox, "google.com"); (bc3.chrome, "google.com")] ∧
  invocations bc3.chromium "google.com" w'' = 0 ∧
  ¬ ∀ (bc : Readers) domain_name verbose w fn,
      invocations fn domain_name
        (load_browser_cookies bc domain_name verbose None w).2 =
      S (invocations fn domain_name w).
Proof.
  split_and!; [done..|]. intros H.
  by specialize (H mock_interrupted "google.com" true w0 bc3.chrome).
Qed.

(** ** The returned dict *)

(** C5.  Whatever the arguments, when the call returns the dict [d], every
    key [n] of [d] with its value [v] is the name and the value of a cookie
    yielded by a reader that this call invoked (the calls in [new], added to
    the world by this call). *)
Theorem returned_dict_from_invoked_readers (bc : Readers)
    (domain_name : string) (verbose : bool) (browser_name : option string)
    (w : World) (d : gmap string string) (w' : World) :
  load_browser_cookies bc domain_name verbose browser_name w
    = (Returned d, w') →
  ∃ new, calls w' = calls w ++ new ∧
    ∀ n v, d !! n = Some v →
      ∃ fn c, (fn, domain_name) ∈ new ∧ c ∈ yielded (bc fn domain_name) ∧
              name c = n ∧ value c = v.
Proof.
  destruct (truthy browser_name) as [s|] eqn:Hb.
  - destruct (mapping_get BROWSER_MAPPING (lower s)) as [fn|] eqn:Hget.
    + rewrite (load_one _ _ _ _ _ _ _ Hb Hget). simpl.
      destruct (escapes _ _); [done|]. intros [= <- <-].
      exists [(fn, domain_name)]. split; [by rewrite except_one_calls|].
      intros n v. rewrite lookup_foldl_store.
      destruct (last_value n _) as [v'|] eqn:Hlast; [|done]. intros [= ->].
      apply last_value_Some in Hlast as (c & ? & ? & ?).
      exists fn, c. split_and!; [by left | done..].
    + rewrite (load_invalid _ _ _ _ _ _ Hb Hget). intros [= <- <-].
      exists []. split; [by rewrite app_nil_r | done].
  - rewrite (load_all _ _ _ _ _ Hb). intros Hrun.
    apply for_browsers_Returned in Hrun as Hall.
    destruct (for_browsers_caught bc domain_name verbose _ ∅ w Hall)
      as (w'' & nl & Hrun' & Hcalls & _).
    rewrite Hrun in Hrun'. injection Hrun' as -> <-.
    exists (invoked domain_name BROWSER_MAPPING). split; [done|].
    intros n v. rewrite lookup_foldl_store.
    destruct (last_value n _) as [v'|] eqn:Hlast; [|done]. intros [= ->].
    apply last_value_Some in Hlast as (c & Hc & ? & ?).
    change (c ∈ all_yields bc domain_name BROWSER_MAPPING) in Hc.
    apply all_yields_elem in Hc as (k & fn & Hkf & Hc).
    exists fn, c. split_and!; [|done..].
    unfold invoked. apply list_elem_of_fmap. by exists (k, fn).
Qed.

(** [test_load_specific_browser_chrome_success], with the mocks of the merge
    test: the key [OTHER_COOKIE] comes from Chrome, the reader called. *)
Lemma returned_dict_from_invoked_readers_witness :
  ∃ fn c, fn = bc3.chrome ∧ c ∈ yielded (mock_merges fn "google.com") ∧
          name c = "OTHER_COOKIE" ∧ value c = "chrome_other_val".
Proof.
  destruct (returned_dict_from_invoked_readers mock_merges "google.com" true
              (Some "chrome") w0 _ _ eq_refl) as (new & Hnew & Hd).
  destruct (Hd "OTHER_COOKIE" "chrome_other_val" eq_refl)
    as (fn & c & Hfn & Hc & Hn & Hv).
  exists fn, c. split_and!; [|done..].
  simpl in Hnew. subst new. by apply list_elem_of_singleton in Hfn as [= ->].
Defined.

(** ** Independence of the world and of [verbose] *)

(** The result is the same whatever the logger holds and whatever was
    called before. *)
Lemma load_result (bc : Readers) domain_name verbose browser_name w1 w2 :
  (load_browser_cookies bc domain_name verbose browser_name w1).1 =
  (load_browser_cookies bc domain_name verbose browser_name w2).1.
Proof.
  destruct (truthy browser_name) as [s|] eqn:Hb.
  - destruct (mapping_get BROWSER_MAPPING (lower s)) as [fn|] eqn:Hget.
    + by rewrite !(load_one _ _ _ _ _ _ _ Hb Hget).
    + by rewrite !(load_invalid _ _ _ _ _ _ Hb Hget).
  - rewrite !(load_all _ _ _ _ _ Hb). apply for_browsers_result.
Qed.

(** C7.  The result of a call is the same in every world: what was called
    or logged before has no part in it.  In particular a call made after
    any other call of the function, with whatever readers and arguments,
    gives what it would have given without that earlier call. *)
Theorem no_state_between_calls (bc : Readers) (domain_name : string)
    (verbose : bool) (browser_name : option string) (w1 w2 : World) :
  (load_browser_cookies bc domain_name verbose browser_name w1).1 =
  (load_browser_cookies bc domain_name verbose browser_name w2).1 ∧
  ∀ (bc0 : Readers) domain_name0 verbose0 browser_name0,
    (load_browser_cookies bc domain_name verbose browser_name
       (load_browser_cookies bc0 domain_name0 verbose0 browser_name0 w1).2).1 =
    (load_browser_cookies bc domain_name verbose browser_name w1).1.
Proof. split; [|intros bc0 d0 v0 b0]; apply load_result. Qed.

(** A call for Chrome after a pass over all browsers that found Firefox's
    cookies returns Chrome's cookies only. *)
Example fresh_dict_each_call :
  (load_browser_cookies mock_merges "google.com" true (Some "chrome")
     (load_browser_cookies mock_merges "google.com" true None w0).2).1 =
  Returned (<["__Secure-1PSID" := "chrome_psid"]>
              (<["OTHER_COOKIE" := "chrome_other_val"]> ∅)).
Proof. vm_compute. reflexivity. Qed.

(** C10, as the code has it.  When [str(e)] returns normally for the
    exceptions whose handlers evaluate it, [verbose] changes what is logged
    only: with the same readers and arguments the call gives the same
    result, and calls the same readers, with [verbose] true and with
    [verbose] false. *)
Theorem verbose_only_affects_logging (bc : Readers) (domain_name : string)
    (browser_name : option string) (w : World) :
  (∀ fn e, selected browser_name fn →
     finish (bc fn domain_name) = Raises e → str_returns e) →
  (load_browser_cookies bc domain_name true browser_name w).1 =
  (load_browser_cookies bc domain_name false browser_name w).1 ∧
  calls (load_browser_cookies bc domain_name true browser_name w).2 =
  calls (load_browser_cookies bc domain_name false browser_name w).2.
Proof.
  unfold selected. intros Hstr. destruct (truthy browser_name) as [s|] eqn:Hb.
  - destruct (mapping_get BROWSER_MAPPING (lower s)) as [fn|] eqn:Hget.
    + rewrite !(load_one _ _ _ _ _ _ _ Hb Hget). simpl.
      rewrite (escapes_verbose (finish (bc fn domain_name)))
        by (intros e; by apply Hstr).
      by rewrite !except_one_calls.
    + by rewrite !(load_invalid _ _ _ _ _ _ Hb Hget).
  - rewrite !(load_all _ _ _ _ _ Hb). apply for_browsers_verbose; [|done].
    apply Forall_forall. intros [k fn] _ e. simpl. by apply Hstr.
Qed.

(** [test_permission_error_handling] with and without [verbose]: the same
    empty dict. *)
Lemma verbose_only_affects_logging_witness :
  (load_browser_cookies mock_permission "google.com" true (Some "chrome") w0).1
  = (load_browser_cookies mock_permission "google.com" false (Some "chrome")
       w0).1.
Proof.
  assert (∀ fn e, selected (Some "chrome") fn →
            finish (mock_permission fn "google.com") = Raises e →
            str_returns e) as Hstr.
  { intros fn e _. destruct fn; simpl; intros [= <-]. intros _. by eexists. }
  exact (proj1 (verbose_only_affects_logging mock_permission "google.com"
                  (Some "chrome") w0 Hstr)).
Defined.

(** C10 as stated fails: Chrome's profile is locked and the
    [PermissionError] it raises has a [__str__] that raises.  The handler
    evaluates [str(e)] only when [verbose] is true: with [verbose] true the
    call propagates what [__str__] raised, with [verbose] false it returns
    the dict. *)
Lemma verbose_only_affects_logging_counterexample :
  (load_browser_cookies mock_unprintable "google.com" true None w0).1
    = Propagated (mkExc OtherException (Text "RuntimeError")) ∧
  (load_browser_cookies mock_unprintable "google.com" false None w0).1
    = Returned {["SID" := "ff_sid"]} ∧
  (load_browser_cookies mock_unprintable "google.com" true None w0).1 ≠
  (load_browser_cookies mock_unprintable "google.com" false None w0).1.
Proof. split_and!; [by vm_compute..|]. vm_compute. intros [=]. Qed.

(** ** The browser name *)

(** C9.  The empty string is falsy, so it selects the pass over all
    browsers: the call does exactly what it does for [None]. *)
Theorem empty_name_is_all_browsers (bc : Readers) (domain_name : string)
    (verbose : bool) (w : World) :
  load_browser_cookies bc domain_name verbose (Some "") w =
  load_browser_cookies bc domain_name verbose None w.
Proof. reflexivity. Qed.

Lemma lower_nonempty s : s ≠ "" → lower s ≠ "".
Proof. intros Hs Hl. by apply lower_empty_inv in Hl. Qed.

(** C8.  For a non-empty [browser_name] whose lowered form is not a key of
    [BROWSER_MAPPING] the call returns the empty dict, calls no reader and
    logs one warning, which lists the ten supported names.  The lookup is
    made with the lowered name: a name that differs from [browser_name] in
    the case of its letters only is rejected in the same way, and for any
    non-empty name the result and the readers called are those for the
    lowered name. *)
Theorem invalid_browser_name (bc : Readers) (domain_name : string)
    (verbose : bool) (browser_name : string) (w : World) :
  browser_name ≠ "" →
  lower browser_name ∉ keys BROWSER_MAPPING →
  load_browser_cookies bc domain_name verbose (Some browser_name) w =
    (Returned ∅,
     {| calls := calls w;
        logs := logs w ++ [(WARNING, invalid_name_warning browser_name)] |}) ∧
  invalid_name_warning browser_name =
    "Invalid browser name '" +:+ browser_name +:+
    "'. Supported names are: firefox, chrome, chromium, opera, opera_gx, " +:+
    "brave, edge, vivaldi, safari, librewolf. No cookies will be loaded." ∧
  (∀ s, lower s = lower browser_name →
     load_browser_cookies bc domain_name verbose (Some s) w =
       (Returned ∅, log WARNING (invalid_name_warning s) w)) ∧
  (∀ s, s ≠ "" →
     (load_browser_cookies bc domain_name verbose (Some s) w).1 =
     (load_browser_cookies bc domain_name verbose (Some (lower s)) w).1 ∧
     calls (load_browser_cookies bc domain_name verbose (Some s) w).2 =
     calls (load_browser_cookies bc domain_name verbose (Some (lower s)) w).2).
Proof.
  intros Hne Hkey. apply mapping_get_None in Hkey. split_and!.
  - by rewrite (load_invalid bc domain_name verbose _ browser_name w
                  (truthy_Some _ Hne) Hkey).
  - unfold invalid_name_warning.
    apply (f_equal (String.append _)), (f_equal (String.append _)).
    vm_compute. reflexivity.
  - intros s Hs. apply load_invalid.
    + apply truthy_Some. intros ->. simpl in Hs. symmetry in Hs.
      by apply lower_empty_inv in Hs.
    + by rewrite Hs.
  - intros s Hs.
    pose proof (truthy_Some _ Hs) as Ht.
    pose proof (truthy_Some _ (lower_nonempty _ Hs)) as Htl.
    destruct (mapping_get BROWSER_MAPPING (lower s)) as [fn|] eqn:Hget.
    + rewrite (load_one bc domain_name verbose _ s fn w Ht Hget).
      rewrite (load_one bc domain_name verbose _ (lower s) fn w Htl)
        by by rewrite lower_idemp.
      simpl. by rewrite !except_one_calls.
    + rewrite (load_invalid bc domain_name verbose _ s w Ht Hget).
      rewrite (load_invalid bc domain_name verbose _ (lower s) w Htl)
        by by rewrite lower_idemp.
      done.
Qed.

(** [test_load_invalid_browser_name] *)
Lemma invalid_browser_name_witness :
  load_browser_cookies mock_merges "google.com" true
    (Some "nonexistentbrowser") w0 =
  (Returned ∅,
   {| calls := [];
      logs := [(WARNING,
                "Invalid browser name 'nonexistentbrowser'. Supported names " +:+
                "are: firefox, chrome, chromium, opera, opera_gx, brave, edge, " +:+
                "vivaldi, safari, librewolf. No cookies will be loaded.")] |}).
Proof.
  assert (lower "nonexistentbrowser" ∉ keys BROWSER_MAPPING) as Hkey.
  { apply mapping_get_None. reflexivity. }
  exact (proj1 (invalid_browser_name mock_merges "google.com" true
                  "nonexistentbrowser" w0 ltac:(discriminate) Hkey)).
Defined.

(** A name in capitals selects the reader of its lowered form. *)
Example name_in_capitals :
  load_browser_cookies mock_merges "google.com" true (Some "CHROME") w0 =
  load_browser_cookies mock_merges "google.com" true (Some "chrome") w0.
Proof. vm_compute. reflexivity. Qed.

(** ** Termination *)

(** With more fuel than cookies, the loop over an iterator does what the
    fold over the cookies does. *)
Lemma for_cookies_reads (it : Iterator) l f :
  ∀ i (cookies : gmap string string) fuel,
    (∀ j c, l !! j = Some c → it (i + j) = Yield c) →
    it (i + length l) = end_item f →
    length l < fuel →
    for_cookies fuel it i cookies = Some (foldl store cookies l, f).
Proof.
  induction l as [|c l IH]; intros i cookies fuel Hy Hend Hfuel.
  - destruct fuel as [|fuel]; [simpl in Hfuel; lia|]. simpl in *.
    rewrite Nat.add_0_r in Hend. rewrite Hend. by destruct f.
  - destruct fuel as [|fuel]; [simpl in Hfuel; lia|]. simpl.
    pose proof (Hy 0 c eq_refl) as H0. rewrite Nat.add_0_r in H0. rewrite H0.
    apply IH.
    + intros j c' Hj. replace (S i + j) with (i + S j) by lia. by apply Hy.
    + simpl in Hend. by replace (S i + length l) with (i + S (length l)) by lia.
    + simpl in Hfuel. lia.
Qed.



Section Fuel.

Variable its : Iterators.
Variable bc : Readers.
Variable domain_name : string.
Variable fuel : nat.

Lemma try_body_it_reads fn cookies w :
  reads (its fn domain_name) (bc fn domain_name) →
  length (yielded (bc fn domain_name)) < fuel →
  try_body_it fuel its fn domain_name cookies w =
  Some (try_body bc fn domain_name cookies w).
Proof.
  intros [Hy Hend] Hfuel. unfold try_body_it, try_body.
  by rewrite (for_cookies_reads _ (yielded (bc fn domain_name))
                (finish (bc fn domain_name)) 0 cookies fuel Hy Hend Hfuel).
Qed.

Lemma for_browsers_it_reads verbose items cookies w :
  (∀ k fn, (k, fn) ∈ items →
     reads (its fn domain_name) (bc fn domain_name) ∧
     length (yielded (bc fn domain_name)) < fuel) →
  for_browsers_it fuel its domain_name verbose items cookies w =
  Some (for_browsers bc domain_name verbose items cookies w).
Proof.
  revert cookies w.
  induction items as [|[k fn] rest IH]; intros cookies w Hall; [done|].
  destruct (Hall k fn) as [Hr Hf]; [by left|].
  cbn [for_browsers_it for_browsers].
  rewrite (try_body_it_reads fn cookies w Hr Hf).
  destruct (try_body bc fn domain_name cookies w) as [[cookies' f] w1].
  destruct (except_all verbose k f w1) as [[e|] w2]; [done|].
  apply IH. intros k' fn' Hin. apply (Hall k'). by right.
Qed.

Lemma load_browser_cookies_it_reads verbose browser_name w :
  (∀ fn, selected browser_name fn →
     reads (its fn domain_name) (bc fn domain_name) ∧
     length (yielded (bc fn domain_name)) < fuel) →
  load_browser_cookies_it fuel its domain_name verbose browser_name w =
  Some (load_browser_cookies bc domain_name verbose browser_name w).
Proof.
  unfold selected, load_browser_cookies_it, load_browser_cookies.
  intros Hall. destruct (truthy browser_name) as [s|].
  - destruct (mapping_get BROWSER_MAPPING (lower s)) as [fn|]; [|done].
    destruct (Hall fn eq_refl) as [Hr Hf].
    rewrite (try_body_it_reads fn ∅ w Hr Hf).
    destruct (try_body bc fn domain_name ∅ w) as [[cookies' f] w1].
    by destruct (except_one verbose s f w1) as [[e|] w2].
  - apply for_browsers_it_reads. intros k fn _. by apply Hall.
Qed.

End Fuel.






(** Three requests per reader are enough there, and give the dict the test
    expects. *)
Example merge_test_with_fuel :
  load_browser_cookies_it 3 mock_merges_it "google.com" false None w0 =
  Some (Returned (<["__Secure-1PSID" := "chrome_psid"]>
                    (<["OTHER_COOKIE" := "chrome_other_val"]>
                       (<["ANOTHER_COOKIE" := "firefox_another_val"]> ∅))),
        {| calls := invoked "google.com" BROWSER_MAPPING; logs := [] |}).
Proof. vm_compute. reflexivity. Qed.

(** ** The tests of the repository, run on the embedding *)

(** [test_load_no_specific_browser_merges_cookies]: the dict the test
    expects, and every reader called once with the domain. *)
Example test_load_no_specific_browser_merges_cookies :
  load_browser_cookies mock_merges "google.com" false None w0 =
  (Returned (<["__Secure-1PSID" := "chrome_psid"]>
               (<["OTHER_COOKIE" := "chrome_other_val"]>
                  (<["ANOTHER_COOKIE" := "firefox_another_val"]> ∅))),
   {| calls := invoked "google.com" BROWSER_MAPPING; logs := [] |}).
Proof. vm_compute. reflexivity. Qed.

(** [test_permission_error_handling]: an empty dict and the warning. *)
Example test_permission_error_handling :
  load_browser_cookies mock_permission "google.com" true (Some "chrome") w0 =
  (Returned ∅,
   {| calls := [(bc3.chrome, "google.com")];
      logs := [(WARNING,
                "Permission denied while trying to load cookies from chrome. "
                +:+ "Permission denied for Chrome")] |}).
Proof. vm_compute. reflexivity. Qed.

(** [test_load_specific_browser_chrome_error], with [verbose] false: an
    empty dict and nothing logged. *)
Example test_load_specific_browser_chrome_error :
  load_browser_cookies (λ _ _, fails BrowserCookieError "Chrome error")
    "google.com" false (Some "chrome") w0 =
  (Returned ∅, {| calls := [(bc3.chrome, "google.com")]; logs := [] |}).
Proof. vm_compute. reflexivity. Qed.

(** * Further properties of the loader *)

(** ** The mode for one browser *)

Lemma mapping_get_member k fn :
  (k, fn) ∈ BROWSER_MAPPING →
  mapping_get BROWSER_MAPPING k = Some fn ∧ k ≠ "" ∧ lower k = k.
Proof.
  unfold BROWSER_MAPPING. intros Hin.
  repeat (apply elem_of_cons in Hin as [[= -> ->]|Hin]); try done.
  by apply elem_of_nil in Hin.
Qed.

(** X1.  A supported name, written in any letter case, selects the reader
    bound to it in [BROWSER_MAPPING]: the call invokes that reader once, with
    the caller's [domain_name], and no other reader.  When the reader's
    iteration ends normally or with an exception deriving from [Exception]
    for which, should [verbose] be true, [str(e)] returns normally where the
    handler evaluates it, the call returns the dict of that reader's
    cookies, each name with the value yielded last for it; an exception
    outside [Exception] propagates. *)
Theorem one_browser_mode (bc : Readers) (domain_name : string)
    (verbose : bool) (s k : string) (fn : bc3.reader) (w : World) :
  (k, fn) ∈ BROWSER_MAPPING →
  lower s = k →
  calls (load_browser_cookies bc domain_name verbose (Some s) w).2
    = calls w ++ [(fn, domain_name)] ∧
  ((∀ e, finish (bc fn domain_name) = Raises e →
      exc_class e ≠ BaseOnly ∧ (verbose = true → str_returns e)) →
   ∃ d, (load_browser_cookies bc domain_name verbose (Some s) w).1
          = Returned d ∧
        ∀ n, d !! n = last_value n (yielded (bc fn domain_name))) ∧
  (∀ e, finish (bc fn domain_name) = Raises e → exc_class e = BaseOnly →
     (load_browser_cookies bc domain_name verbose (Some s) w).1
       = Propagated e).
Proof.
  intros Hin Hs. destruct (mapping_get_member k fn Hin) as (Hget & Hk & _).
  assert (truthy (Some s) = Some s) as Ht.
  { apply truthy_Some. intros ->. simpl in Hs. by subst k. }
  rewrite <- Hs in Hget.
  rewrite (load_one bc domain_name verbose _ s fn w Ht Hget). simpl.
  split_and!.
  - by rewrite except_one_calls.
  - intros Hc. apply escapes_None in Hc. rewrite Hc. eexists. split; [done|].
    intros n. rewrite lookup_foldl_store. by destruct (last_value n _).
  - intros e He Hcls. by rewrite He, (escapes_BaseOnly _ _ Hcls).
Qed.

(** [FireFox] selects [bc3.firefox]; with the mocks of the merge test the
    call returns Firefox's two cookies. *)
Lemma one_browser_mode_witness :
  calls (load_browser_cookies mock_merges "google.com" true (Some "FireFox")
           w0).2 = [(bc3.firefox, "google.com")].
Proof.
  assert (("firefox", bc3.firefox) ∈ BROWSER_MAPPING) as Hin.
  { apply list_elem_of_here. }
  exact (proj1 (one_browser_mode mock_merges "google.com" true "FireFox"
                  "firefox" bc3.firefox w0 Hin eq_refl)).
Defined.

(** ** The pass over all browsers as a merge *)

Lemma foldl_store_union l (acc : gmap string string) :
  foldl store acc l = foldl store ∅ l ∪ acc.
Proof.
  apply map_eq. intros n. rewrite lookup_union, !lookup_foldl_store.
  rewrite lookup_empty. by destruct (last_value n l), (acc !! n).
Qed.

Lemma all_yields_merge (bc : Readers) domain_name items
    (acc : gmap string string) :
  foldl store acc (all_yields bc domain_name items) =
  foldl (λ acc dk, dk ∪ acc) acc
    ((λ kf, foldl store ∅ (yielded (bc kf.2 domain_name))) <$> items).
Proof.
  revert acc. induction items as [|[k fn] rest IH]; intros acc; [done|].
  change ((k, fn) :: rest) with ([(k, fn)] ++ rest).
  rewrite all_yields_app, foldl_store_app, IH. simpl. f_equal.
  unfold all_yields. simpl. rewrite app_nil_r. apply foldl_store_union.
Qed.

(** X2.  When no reader raises outside the [Exception] hierarchy and,
    should [verbose] be true, [str(e)] returns normally for the exceptions
    whose handlers evaluate it, the dict of the pass over all browsers is
    the merge of the dicts [ds] that the ten calls for one browser return,
    taken in the order of [BROWSER_MAPPING], each overriding what the
    earlier ones gave for the same name. *)
Theorem all_browsers_is_merge (bc : Readers) (domain_name : string)
    (verbose : bool) (w : World) :
  all_caught bc domain_name →
  (verbose = true → all_printable bc domain_name) →
  ∃ d ds,
    (load_browser_cookies bc domain_name verbose None w).1 = Returned d ∧
    Forall2 (λ k dk,
               (load_browser_cookies bc domain_name verbose (Some k) w).1
                 = Returned dk)
            (keys BROWSER_MAPPING) ds ∧
    d = foldl (λ acc dk, dk ∪ acc) ∅ ds.
Proof.
  intros Hall Hstr.
  destruct (for_browsers_caught bc domain_name verbose BROWSER_MAPPING ∅ w
              (all_caught_Forall _ _ _ _ Hall Hstr)) as (w' & new & Hrun & _).
  exists (foldl store ∅ (all_yields bc domain_name BROWSER_MAPPING)),
    ((λ kf, foldl store ∅ (yielded (bc kf.2 domain_name))) <$> BROWSER_MAPPING).
  split_and!.
  - rewrite load_all by done. by rewrite Hrun.
  - unfold keys. apply Forall2_fmap, Forall_Forall2_diag, Forall_forall.
    intros [k fn] Hin. simpl.
    destruct (mapping_get_member k fn Hin) as (Hget & Hk & Hlow).
    rewrite <- Hlow in Hget.
    rewrite (load_one bc domain_name verbose _ k fn w (truthy_Some _ Hk) Hget).
    simpl.
    assert (escapes verbose (finish (bc fn domain_name)) = None) as ->;
      [|done].
    apply escapes_None. intros e He. split; [by apply (Hall fn)|].
    intros Hv. by apply (Hstr Hv fn).
  - apply all_yields_merge.
Qed.

(** With the mocks of the merge test the merge is Chrome's dict over
    Firefox's. *)
Lemma all_browsers_is_merge_witness :
  ∃ d ds,
    (load_browser_cookies mock_merges "google.com" false None w0).1
      = Returned d ∧
    length ds = 10 ∧
    d = foldl (λ acc dk, dk ∪ acc) ∅ ds.
Proof.
  assert (all_caught mock_merges "google.com") as Hall.
  { intros fn e. destruct fn; simpl; intros [= <-]; done. }
  destruct (all_browsers_is_merge mock_merges "google.com" false w0 Hall
              (λ _, mock_merges_printable))
    as (d & ds & Hd & Hds & Hmerge).
  exists d, ds. split_and!; [done| |done].
  by rewrite <- (Forall2_length _ _ _ Hds).
Defined.

(** ** The keys of the returned dict *)

Lemma foldl_store_keys l n :
  is_Some (foldl store ∅ l !! n) ↔ ∃ c, c ∈ l ∧ name c = n.
Proof.
  rewrite lookup_foldl_store, lookup_empty. split.
  - destruct (last_value n l) as [v|] eqn:Hl; [|by intros [? ?]]. intros _.
    apply last_value_Some in Hl as (c & ? & ? & _). by exists c.
  - intros (c & Hc & <-).
    destruct (last_value_elem (name c) l) as [v ->]; [|by eexists].
    apply list_elem_of_fmap. by exists c.
Qed.

Lemma foldl_store_empty l : foldl store ∅ l = ∅ ↔ l = [].
Proof.
  split; [|by intros ->]. destruct l as [|c l]; [done|]. intros Hd.
  assert (is_Some (foldl store ∅ (c :: l) !! name c)) as [v Hv].
  { apply foldl_store_keys. exists c. split; [by left | done]. }
  by rewrite Hd, lookup_empty in Hv.
Qed.

Lemma all_yields_nil (bc : Readers) domain_name items :
  all_yields bc domain_name items = [] ↔
  ∀ fn, (fn, domain_name) ∈ invoked domain_name items →
        yielded (bc fn domain_name) = [].
Proof.
  unfold all_yields, invoked. induction items as [|[k fn] rest IH]; simpl.
  - split; [by intros _ ? ?%elem_of_nil | done].
  - rewrite app_nil, IH. split.
    + intros [H1 H2] fn' [[= ->]|Hin]%elem_of_cons; [done | by apply H2].
    + intros H. split; [apply H; by left | intros fn' Hin; apply H; by right].
Qed.

(** X3.  When the call returns the dict [d], whatever the mode, the keys of
    [d] are exactly the names of the cookies yielded by the readers this
    call invoked, those of a reader that failed after yielding included; so
    [d] is empty exactly when none of them yielded a cookie. *)
Theorem keys_are_the_yielded_names (bc : Readers) (domain_name : string)
    (verbose : bool) (browser_name : option string) (w : World)
    (d : gmap string string) (w' : World) :
  load_browser_cookies bc domain_name verbose browser_name w
    = (Returned d, w') →
  ∃ new, calls w' = calls w ++ new ∧
    (∀ n, is_Some (d !! n) ↔
          ∃ fn c, (fn, domain_name) ∈ new ∧
                  c ∈ yielded (bc fn domain_name) ∧ name c = n) ∧
    (d = ∅ ↔ ∀ fn, (fn, domain_name) ∈ new → yielded (bc fn domain_name) = []).
Proof.
  destruct (truthy browser_name) as [s|] eqn:Hb.
  - destruct (mapping_get BROWSER_MAPPING (lower s)) as [fn|] eqn:Hget.
    + rewrite (load_one _ _ _ _ _ _ _ Hb Hget). simpl.
      destruct (escapes _ _); [done|]. intros [= <- <-].
      exists [(fn, domain_name)]. split_and!.
      * by rewrite except_one_calls.
      * intros n. rewrite foldl_store_keys. split.
        -- intros (c & ? & ?). exists fn, c. split_and!; [by left | done..].
        -- intros (fn' & c & [= ->]%list_elem_of_singleton & ? & ?). by exists c.
      * rewrite foldl_store_empty. split.
        -- by intros Hy fn' [= ->]%list_elem_of_singleton.
        -- intros H. apply H. by left.
    + rewrite (load_invalid _ _ _ _ _ _ Hb Hget). intros [= <- <-].
      exists []. split_and!.
      * by rewrite app_nil_r.
      * intros n. rewrite lookup_empty. split; [by intros [? ?]|].
        by intros (fn & c & ?%elem_of_nil & _).
      * split; [by intros _ fn ?%elem_of_nil | done].
  - rewrite (load_all _ _ _ _ _ Hb). intros Hrun.
    apply for_browsers_Returned in Hrun as Hall.
    destruct (for_browsers_caught bc domain_name verbose _ ∅ w Hall)
      as (w'' & nl & Hrun' & Hcalls & _).
    rewrite Hrun in Hrun'.
    assert (d = foldl store ∅ (all_yields bc domain_name BROWSER_MAPPING)
            ∧ w' = w'') as [-> ->] by (by injection Hrun').
    exists (invoked domain_name BROWSER_MAPPING). split_and!; [done| |].
    + intros n. rewrite foldl_store_keys. split.
      * intros (c & Hc & ?). apply all_yields_elem in Hc as (k & fn & Hkf & Hc).
        exists fn, c. split_and!; [|done..].
        unfold invoked. apply list_elem_of_fmap. by exists (k, fn).
      * intros (fn & c & Hfn & Hc & ?). exists c. split; [|done].
        unfold invoked in Hfn.
        apply list_elem_of_fmap in Hfn as ([k fn'] & [= <-] & Hkf).
        unfold all_yields. apply list_elem_of_bind. by exists (k, fn).
    + rewrite foldl_store_empty. apply all_yields_nil.
Qed.

(** Chrome's profile is locked and it is the reader asked for: the call
    returns the empty dict. *)
Lemma keys_are_the_yielded_names_witness :
  (load_browser_cookies mock_failures "google.com" true (Some "chrome") w0).1
    = Returned ∅.
Proof.
  destruct (keys_are_the_yielded_names mock_failures "google.com" true
              (Some "chrome") w0 _ _ eq_refl) as (new & Hnew & _ & Hempty).
  simpl in Hnew. subst new.
  assert (∀ fn, (fn, "google.com") ∈ [(bc3.chrome, "google.com")] →
                yielded (mock_failures fn "google.com") = []) as Hnone.
  { by intros fn [= ->]%list_elem_of_singleton. }
  exact (f_equal Returned (proj2 Hempty Hnone)).
Defined.

(** ** An exception that leaves the loop *)

Lemma readers_NoDup : NoDup (BROWSER_MAPPING.*2).
Proof. refine (bool_decide_unpack _ _). vm_compute. exact I. Qed.

Lemma filter_reader_absent fn (items : list (string * bc3.reader)) :
  fn ∉ items.*2 →
  filter (λ kf : string * bc3.reader, kf.2 = fn) items = [].
Proof.
  induction items as [|[k fn0] rest IH]; [done|].
  rewrite fmap_cons, not_elem_of_cons. simpl. intros [Hne Hrest].
  rewrite filter_cons, decide_False by (simpl; congruence). by apply IH.
Qed.

(** The first exception that leaves the loop ends the pass over all
    browsers. *)
Lemma load_all_escape (bc : Readers) domain_name verbose w pre k fn post e :
  BROWSER_MAPPING = pre ++ (k, fn) :: post →
  (∀ k' fn' e', (k', fn') ∈ pre →
     finish (bc fn' domain_name) = Raises e' →
     exc_class e' ≠ BaseOnly ∧ (verbose = true → str_returns e')) →
  escapes verbose (finish (bc fn domain_name)) = Some e →
  (load_browser_cookies bc domain_name verbose None w).1 = Propagated e ∧
  calls (load_browser_cookies bc domain_name verbose None w).2
    = calls w ++ invoked domain_name (pre ++ [(k, fn)]) ∧
  ∀ k' fn', (k', fn') ∈ post →
    invocations fn' domain_name
      (load_browser_cookies bc domain_name verbose None w).2
    = invocations fn' domain_name w.
Proof.
  intros Hsplit Hpre Hfn.
  assert (Forall (λ kf, escapes verbose (finish (bc kf.2 domain_name)) = None)
                 pre) as Hpre'.
  { apply Forall_forall. intros [k' fn'] Hin. simpl. apply escapes_None.
    intros e'. by apply (Hpre k'). }
  rewrite load_all by done. rewrite Hsplit.
  destruct (for_browsers_escape bc domain_name verbose pre k fn post e ∅ w
              Hpre' Hfn) as (w' & -> & Hcalls).
  simpl. split_and!; [done..|].
  intros k' fn' Hin. rewrite (invocations_app _ _ _ _ _ Hcalls), invoked_count.
  assert (fn' ∉ (pre ++ [(k, fn)]).*2) as Hnot.
  { pose proof readers_NoDup as Hnd. rewrite Hsplit in Hnd.
    change ((k, fn) :: post) with ([(k, fn)] ++ post) in Hnd.
    rewrite app_assoc, fmap_app in Hnd.
    apply NoDup_app in Hnd as (_ & Hdisj & _). intros Hfn'.
    apply (Hdisj fn' Hfn'). apply list_elem_of_fmap. by exists (k', fn'). }
  rewrite (filter_reader_absent _ _ Hnot). simpl. lia.
Qed.

(** X4.  In the pass over all browsers, when the readers before [fn] let no
    exception out of the loop (none raises outside the [Exception]
    hierarchy and, should [verbose] be true, [str(e)] returns normally
    where their handlers evaluate it) and [fn] raises outside the
    [Exception] hierarchy, the call ends there: that exception propagates,
    no dict is returned although earlier readers yielded cookies, the
    readers up to and including [fn] have been called once each with
    [domain_name], and the readers after it are not called. *)
Theorem first_uncaught_exception_propagates (bc : Readers)
    (domain_name : string) (verbose : bool) (w : World)
    (pre post : list (string * bc3.reader)) (k : string) (fn : bc3.reader)
    (e : Exc) :
  BROWSER_MAPPING = pre ++ (k, fn) :: post →
  (∀ k' fn' e', (k', fn') ∈ pre →
     finish (bc fn' domain_name) = Raises e' →
     exc_class e' ≠ BaseOnly ∧ (verbose = true → str_returns e')) →
  finish (bc fn domain_name) = Raises e →
  exc_class e = BaseOnly →
  (load_browser_cookies bc domain_name verbose None w).1 = Propagated e ∧
  calls (load_browser_cookies bc domain_name verbose None w).2
    = calls w ++ invoked domain_name (pre ++ [(k, fn)]) ∧
  ∀ k' fn', (k', fn') ∈ post →
    invocations fn' domain_name
      (load_browser_cookies bc domain_name verbose None w).2
    = invocations fn' domain_name w.
Proof.
  intros Hsplit Hpre He Hcls.
  apply (load_all_escape bc domain_name verbose w pre k fn post e Hsplit Hpre).
  by rewrite He, (escapes_BaseOnly _ _ Hcls).
Qed.

(** The process is told to exit while Chromium is read: the call ends
    there, after Firefox and Chrome, and Opera is never asked. *)
Lemma first_uncaught_exception_propagates_witness :
  (load_browser_cookies mock_exit "google.com" true None w0).1
    = Propagated (mkExc BaseOnly (Text "SystemExit")) ∧
  invocations bc3.opera "google.com"
    (load_browser_cookies mock_exit "google.com" true None w0).2 = 0.
Proof.
  assert (∀ k' fn' e',
            (k', fn') ∈ [("firefox", bc3.firefox); ("chrome", bc3.chrome)] →
            finish (mock_exit fn' "google.com") = Raises e' →
            exc_class e' ≠ BaseOnly ∧ (true = true → str_returns e')) as Hpre.
  { intros k' fn' e' Hin.
    repeat (apply elem_of_cons in Hin as [[= -> ->]|Hin]);
      [by intros [=] | | by apply elem_of_nil in Hin].
    intros [= <-]. split; [done|]. intros _ _. by eexists. }
  destruct (first_uncaught_exception_propagates mock_exit "google.com" true w0
              [("firefox", bc3.firefox); ("chrome", bc3.chrome)]
              (drop 3 BROWSER_MAPPING) "chromium" bc3.chromium
              (mkExc BaseOnly (Text "SystemExit")) eq_refl Hpre eq_refl eq_refl)
    as (Hres & _ & Hpost).
  split; [done|]. apply (Hpost "opera" bc3.opera). apply list_elem_of_here.
Defined.

(** X10.  With [verbose] true, a handler that evaluates [str(e)] raises
    what [__str__] raises.  In the pass over all browsers, when the readers
    before [fn] let no exception out of the loop and [fn] raises a
    [PermissionError] or another [Exception] (not a [BrowserCookieError])
    whose [__str__] raises [e'], the call ends there: [e'] propagates, no
    dict is returned, the readers up to and including [fn] have been called
    once each and those after it are not called. *)
Theorem handler_failure_propagates (bc : Readers) (domain_name : string)
    (w : World) (pre post : list (string * bc3.reader)) (k : string)
    (fn : bc3.reader) (e e' : Exc) :
  BROWSER_MAPPING = pre ++ (k, fn) :: post →
  (∀ k0 fn0 e0, (k0, fn0) ∈ pre →
     finish (bc fn0 domain_name) = Raises e0 →
     exc_class e0 ≠ BaseOnly ∧ str_returns e0) →
  finish (bc fn domain_name) = Raises e →
  exc_class e = PermissionError ∨ exc_class e = OtherException →
  exc_str e = StrRaises e' →
  (load_browser_cookies bc domain_name true None w).1 = Propagated e' ∧
  calls (load_browser_cookies bc domain_name true None w).2
    = calls w ++ invoked domain_name (pre ++ [(k, fn)]) ∧
  ∀ k0 fn0, (k0, fn0) ∈ post →
    invocations fn0 domain_name
      (load_browser_cookies bc domain_name true None w).2
    = invocations fn0 domain_name w.
Proof.
  intros Hsplit Hpre He Hcls Hstr.
  apply (load_all_escape bc domain_name true w pre k fn post e' Hsplit).
  { intros k0 fn0 e0 Hin He0. destruct (Hpre k0 fn0 e0 Hin He0). by split. }
  rewrite He. destruct e as [c m]. simpl in *. subst m.
  by destruct Hcls as [-> | ->].
Qed.

(** Chrome's [PermissionError] has a [__str__] that raises: the call ends
    with what it raised, after Firefox and Chrome, and Chromium is never
    asked. *)
Lemma handler_failure_propagates_witness :
  (load_browser_cookies mock_unprintable "google.com" true None w0).1
    = Propagated (mkExc OtherException (Text "RuntimeError")) ∧
  invocations bc3.chromium "google.com"
    (load_browser_cookies mock_unprintable "google.com" true None w0).2 = 0.
Proof.
  assert (∀ k0 fn0 e0,
            (k0, fn0) ∈ [("firefox", bc3.firefox)] →
            finish (mock_unprintable fn0 "google.com") = Raises e0 →
            exc_class e0 ≠ BaseOnly ∧ str_returns e0) as Hpre.
  { by intros k0 fn0 e0 [= -> ->]%list_elem_of_singleton [=]. }
  destruct (handler_failure_propagates mock_unprintable "google.com" w0
              [("firefox", bc3.firefox)] (drop 2 BROWSER_MAPPING)
              "chrome" bc3.chrome
              (mkExc PermissionError
                 (StrRaises (mkExc OtherException (Text "RuntimeError"))))
              (mkExc OtherException (Text "RuntimeError"))
              eq_refl Hpre eq_refl (or_introl eq_refl) eq_refl)
    as (Hres & _ & Hpost).
  split; [done|]. apply (Hpost "chromium" bc3.chromium).
  apply list_elem_of_here.
Defined.

(** ** What is logged *)

Lemma except_all_quiet k f w : logs (except_all false k f w).2 = logs w.
Proof. by destruct f as [|[[] []]]. Qed.

Lemma except_one_quiet s f w : logs (except_one false s f w).2 = logs w.
Proof. by destruct f as [|[[] []]]. Qed.

Lemma for_browsers_quiet (bc : Readers) domain_name items cookies w :
  logs (for_browsers bc domain_name false items cookies w).2 = logs w.
Proof.
  revert cookies w. induction items as [|[k fn] rest IH]; intros cookies w;
    [done|].
  rewrite for_browsers_cons. simpl.
  destruct (escapes _ _); simpl; [|rewrite IH]; by rewrite except_all_quiet.
Qed.

(** X5.  With [verbose] false and a [browser_name] that is [None], empty or
    supported, the call hands nothing to the logger, whatever the readers
    do, uncaught exceptions included. *)
Theorem quiet_without_verbose (bc : Readers) (domain_name : string)
    (browser_name : option string) (w : World) :
  (∀ s, truthy browser_name = Some s → lower s ∈ keys BROWSER_MAPPING) →
  logs (load_browser_cookies bc domain_name false browser_name w).2 = logs w.
Proof.
  intros Hname. destruct (truthy browser_name) as [s|] eqn:Hb.
  - destruct (mapping_get BROWSER_MAPPING (lower s)) as [fn|] eqn:Hget.
    + rewrite (load_one _ _ _ _ _ _ _ Hb Hget). simpl.
      by rewrite except_one_quiet.
    + apply mapping_get_None in Hget. by destruct (Hget (Hname s eq_refl)).
  - rewrite (load_all _ _ _ _ _ Hb). apply for_browsers_quiet.
Qed.

(** Chrome's profile is locked and nothing is logged. *)
Lemma quiet_without_verbose_witness :
  logs (load_browser_cookies mock_failures "google.com" false (Some "Chrome")
          w0).2 = [].
Proof.
  assert (∀ s, truthy (Some "Chrome") = Some s →
               lower s ∈ keys BROWSER_MAPPING) as Hname.
  { intros s [= <-]. apply list_elem_of_further, list_elem_of_here. }
  exact (quiet_without_verbose mock_failures "google.com" (Some "Chrome") w0
           Hname).
Defined.

Lemma except_all_levels k f w :
  escapes true f = None →
  (logs (except_all true k f w).2).*1 =
  (logs w).*1 ++ option_list (reported_level f).
Proof.
  destruct f as [|[[] []]]; simpl; rewrite ?app_nil_r, ?fmap_app; done.
Qed.

Lemma for_browsers_levels (bc : Readers) domain_name items cookies w :
  Forall (λ kf, escapes true (finish (bc kf.2 domain_name)) = None) items →
  (logs (for_browsers bc domain_name true items cookies w).2).*1 =
  (logs w).*1 ++ omap (λ kf, reported_level (finish (bc kf.2 domain_name))) items.
Proof.
  revert cookies w. induction items as [|[k fn] rest IH]; intros cookies w Hall.
  - simpl. by rewrite app_nil_r.
  - apply Forall_cons in Hall as [Hfn Hrest]. simpl in Hfn.
    rewrite for_browsers_cons. simpl. rewrite Hfn, (IH _ _ Hrest).
    rewrite (except_all_levels _ _ _ Hfn). simpl. rewrite <- app_assoc. f_equal.
    by destruct (reported_level _).
Qed.

(** X6.  With [verbose] true, when no reader raises outside the [Exception]
    hierarchy and [str(e)] returns normally for the exceptions whose
    handlers evaluate it, the pass over all browsers logs one record for
    each reader that failed with a [PermissionError], at level warning, or
    with an [Exception] other than [BrowserCookieError], at level error, in
    the order of [BROWSER_MAPPING], and nothing else: never a record at
    level info, none for a reader that succeeded or raised
    [BrowserCookieError]. *)
Theorem pass_reports_failures_in_order (bc : Readers) (domain_name : string)
    (w : World) :
  all_caught bc domain_name →
  all_printable bc domain_name →
  (logs (load_browser_cookies bc domain_name true None w).2).*1 =
  (logs w).*1 ++
  omap (λ kf, reported_level (finish (bc kf.2 domain_name))) BROWSER_MAPPING.
Proof.
  intros Hall Hstr. rewrite load_all by done.
  apply for_browsers_levels. by apply all_caught_Forall.
Qed.

Lemma mock_failures_printable : all_printable mock_failures "google.com".
Proof.
  intros fn e. destruct fn; simpl; intros [= <-]; intros _; by eexists.
Defined.

(** Chrome's profile is locked, Chromium's store is broken and Opera is not
    installed: a warning, then an error. *)
Lemma pass_reports_failures_in_order_witness :
  (logs (load_browser_cookies mock_failures "google.com" true None w0).2).*1
    = [WARNING; ERROR].
Proof.
  assert (all_caught mock_failures "google.com") as Hall.
  { intros fn e. destruct fn; simpl; intros [= <-]; done. }
  exact (pass_reports_failures_in_order mock_failures "google.com" w0 Hall
           mock_failures_printable).
Defined.

(** ** The order of the browsers *)

Lemma last_value_unique_reader (bc : Readers) domain_name items k fn n :
  NoDup (items.*2) →
  (∀ k1 fn1 k2 fn2, (k1, fn1) ∈ items → (k2, fn2) ∈ items →
     n ∈ name <$> yielded (bc fn1 domain_name) →
     n ∈ name <$> yielded (bc fn2 domain_name) → fn1 = fn2) →
  (k, fn) ∈ items →
  n ∈ name <$> yielded (bc fn domain_name) →
  last_value n (all_yields bc domain_name items) =
  last_value n (yielded (bc fn domain_name)).
Proof.
  intros Hnd Hfree Hin Hn.
  apply list_elem_of_split in Hin as (pre & post & ->).
  apply (last_value_all_yields bc domain_name _ pre k fn post n eq_refl Hn).
  intros k' fn' Hin' Hn'.
  assert (fn' = fn) as ->.
  { apply (Hfree k' fn' k fn); [|by apply elem_of_app; right; left|done..].
    apply elem_of_app. right. by right. }
  rewrite fmap_app, fmap_cons in Hnd.
  apply NoDup_app in Hnd as (_ & _ & Hnd). apply NoDup_cons in Hnd as [Hnot _].
  apply Hnot. simpl. apply list_elem_of_fmap. by exists (k', fn).
Qed.

(** X7.  The order of [BROWSER_MAPPING] matters for colliding names only:
    when no reader raises outside the [Exception] hierarchy, [str(e)]
    returns normally, should [verbose] be true, for the exceptions whose
    handlers evaluate it, and no name is yielded by two different readers,
    the loop run over the entries of [BROWSER_MAPPING] in any other order
    returns the same dict. *)
Theorem order_matters_only_on_collision (bc : Readers) (domain_name : string)
    (verbose : bool) (items : list (string * bc3.reader)) (w : World) :
  items ≡ₚ BROWSER_MAPPING →
  all_caught bc domain_name →
  (verbose = true → all_printable bc domain_name) →
  (∀ n fn1 fn2,
     n ∈ name <$> yielded (bc fn1 domain_name) →
     n ∈ name <$> yielded (bc fn2 domain_name) → fn1 = fn2) →
  (for_browsers bc domain_name verbose items ∅ w).1 =
  (load_browser_cookies bc domain_name verbose None w).1.
Proof.
  intros Hperm Hall Hstr Hfree. rewrite load_all by done.
  destruct (for_browsers_caught bc domain_name verbose items ∅ w
              (all_caught_Forall _ _ _ _ Hall Hstr)) as (w1 & new1 & -> & _).
  destruct (for_browsers_caught bc domain_name verbose BROWSER_MAPPING ∅ w
              (all_caught_Forall _ _ _ _ Hall Hstr)) as (w2 & new2 & -> & _).
  simpl. f_equal. apply map_eq. intros n. rewrite !lookup_foldl_store.
  assert (last_value n (all_yields bc domain_name items) =
          last_value n (all_yields bc domain_name BROWSER_MAPPING)) as ->;
    [|done].
  assert (NoDup (items.*2)) as Hnd.
  { rewrite Hperm. apply readers_NoDup. }
  destruct (decide (n ∈ name <$> all_yields bc domain_name BROWSER_MAPPING))
    as [Hn|Hn].
  - apply list_elem_of_fmap in Hn as (c & -> & Hc).
    apply all_yields_elem in Hc as (k & fn & Hkf & Hc).
    assert (name c ∈ name <$> yielded (bc fn domain_name)) as Hnc.
    { apply list_elem_of_fmap. by exists c. }
    rewrite (last_value_unique_reader bc domain_name items k fn (name c));
      [|done| |by rewrite Hperm|done].
    + symmetry. apply (last_value_unique_reader bc domain_name _ k fn);
        [apply readers_NoDup| |done..].
      intros k1 fn1 k2 fn2 _ _. apply Hfree.
    + intros k1 fn1 k2 fn2 _ _. apply Hfree.
  - assert (n ∉ name <$> all_yields bc domain_name items) as Hn'.
    { apply all_yields_names. intros k fn Hkf. rewrite Hperm in Hkf.
      by apply (proj1 (all_yields_names bc domain_name n BROWSER_MAPPING) Hn k). }
    apply last_value_None in Hn, Hn'. by rewrite Hn, Hn'.
Qed.

(** Only Firefox has cookies: the browsers taken in the reverse order give
    the same dict. *)
Lemma order_matters_only_on_collision_witness :
  (for_browsers mock_failures "google.com" true (reverse BROWSER_MAPPING) ∅
     w0).1 =
  (load_browser_cookies mock_failures "google.com" true None w0).1.
Proof.
  assert (all_caught mock_failures "google.com") as Hall.
  { intros fn e. destruct fn; simpl; intros [= <-]; done. }
  assert (∀ n fn1 fn2,
            n ∈ name <$> yielded (mock_failures fn1 "google.com") →
            n ∈ name <$> yielded (mock_failures fn2 "google.com") →
            fn1 = fn2) as Hfree.
  { intros n fn1 fn2 H1 H2.
    destruct fn1; simpl in H1; try (by apply elem_of_nil in H1);
      destruct fn2; simpl in H2; try (by apply elem_of_nil in H2); done. }
  exact (order_matters_only_on_collision mock_failures "google.com" true
           (reverse BROWSER_MAPPING) w0 (reverse_Permutation _) Hall
           (λ _, mock_failures_printable) Hfree).
Defined.

(** ** Readers that do not end *)

Lemma for_cookies_finite fuel (it : Iterator) :
  ∀ i cookies r, for_cookies fuel it i cookies = Some r → finite it.
Proof.
  induction fuel as [|fuel IH]; intros i cookies r; simpl; [done|].
  destruct (it i) as [c| |e] eqn:Hi.
  - apply IH.
  - intros _. exists i. intros c. by rewrite Hi.
  - intros _. exists i. intros c. by rewrite Hi.
Qed.

Lemma try_body_it_finite fuel (its : Iterators) fn domain_name cookies w r :
  try_body_it fuel its fn domain_name cookies w = Some r →
  finite (its fn domain_name) ∧ calls r.2 = calls w ++ [(fn, domain_name)].
Proof.
  unfold try_body_it.
  destruct (for_cookies _ _ _ _) as [[cookies' f]|] eqn:Hloop; [|done].
  intros [= <-]. split; [by eapply for_cookies_finite | done].
Qed.

Lemma for_browsers_it_finite fuel (its : Iterators) domain_name verbose items :
  ∀ cookies w r w',
    for_browsers_it fuel its domain_name verbose items cookies w
      = Some (r, w') →
    ∃ new, calls w' = calls w ++ new ∧
      (∀ fn, (fn, domain_name) ∈ new → finite (its fn domain_name)) ∧
      (∀ d, r = Returned d → new = invoked domain_name items).
Proof.
  induction items as [|[k fn] rest IH]; intros cookies w r w'.
  - intros [= <- <-]. exists []. rewrite app_nil_r.
    split_and!; [done | by intros fn ?%elem_of_nil | done].
  - cbn [for_browsers_it].
    destruct (try_body_it _ _ _ _ _ _) as [[[cookies1 f] w1]|] eqn:Htry;
      [|done].
    apply try_body_it_finite in Htry as [Hfin Hc1]. simpl in Hc1.
    pose proof (except_all_calls verbose k f w1) as Hc2.
    destruct (except_all verbose k f w1) as [[e|] w2]; simpl in Hc2.
    + intros [= <- <-]. exists [(fn, domain_name)].
      split_and!; [by rewrite Hc2 | | done].
      by intros fn' [= ->]%list_elem_of_singleton.
    + intros Hrun. destruct (IH _ _ _ _ Hrun) as (new & Hnew & Hall & Hret).
      exists ((fn, domain_name) :: new). split_and!.
      * rewrite Hnew, Hc2, Hc1. by rewrite <- app_assoc.
      * intros fn' [[= ->]|Hin]%elem_of_cons; [done | by apply Hall].
      * intros d Hd. simpl. f_equal. by apply (Hret d).
Qed.

(** X8.  With the loop over a reader's result run one request at a time:
    a call that completes, by returning or by propagating an exception, has
    invoked only readers whose iterators are finite, and a call that returns
    a dict has found finite the iterator of every reader it may invoke.  So
    a call that reaches a reader yielding cookies without end completes for
    no amount of fuel. *)
Theorem completes_only_if_finite (fuel : nat) (its : Iterators)
    (domain_name : string) (verbose : bool) (browser_name : option string)
    (w : World) (r : Result) (w' : World) :
  load_browser_cookies_it fuel its domain_name verbose browser_name w
    = Some (r, w') →
  ∃ new, calls w' = calls w ++ new ∧
    (∀ fn, (fn, domain_name) ∈ new → finite (its fn domain_name)) ∧
    (∀ d, r = Returned d →
       ∀ fn, selected browser_name fn → finite (its fn domain_name)).
Proof.
  unfold load_browser_cookies_it, selected.
  destruct (truthy browser_name) as [s|] eqn:Hb.
  - destruct (mapping_get BROWSER_MAPPING (lower s)) as [fn|] eqn:Hget.
    + destruct (try_body_it _ _ _ _ _ _) as [[[cookies1 f] w1]|] eqn:Htry;
        [|done].
      apply try_body_it_finite in Htry as [Hfin Hc1]. simpl in Hc1.
      pose proof (except_one_calls verbose s f w1) as Hc2.
      intros Hrun. exists [(fn, domain_name)]. split_and!.
      * destruct (except_one verbose s f w1) as [[e|] w2]; simpl in Hc2;
          injection Hrun as <- <-; by rewrite Hc2.
      * by intros fn' [= ->]%list_elem_of_singleton.
      * by intros d _ fn' [= <-].
    + intros [= <- <-]. exists []. rewrite app_nil_r.
      split_and!; [done | by intros fn ?%elem_of_nil | done].
  - intros Hrun.
    destruct (for_browsers_it_finite _ _ _ _ _ _ _ _ _ Hrun)
      as (new & Hnew & Hall & Hret).
    exists new. split_and!; [done..|].
    intros d Hd fn _. apply Hall. rewrite (Hret d Hd).
    unfold invoked. apply list_elem_of_fmap.
    destruct fn; eexists (_, _); (split; [reflexivity|]);
      apply list_elem_of_In; simpl; tauto.
Qed.

(** The call for Chrome with the mocks of the merge test completes with
    three requests, so Chrome's iterator is finite. *)
Lemma completes_only_if_finite_witness :
  finite (mock_merges_it bc3.chrome "google.com").
Proof.
  destruct (completes_only_if_finite 3 mock_merges_it "google.com" false
              (Some "chrome") w0 _ _ eq_refl) as (new & _ & _ & Hret).
  exact (Hret _ eq_refl bc3.chrome eq_refl).
Defined.

(** ** Failures and the dict *)

Lemma all_yields_ext (bc1 bc2 : Readers) domain_name items :
  (∀ fn, yielded (bc1 fn domain_name) = yielded (bc2 fn domain_name)) →
  all_yields bc1 domain_name items = all_yields bc2 domain_name items.
Proof.
  intros Hy. unfold all_yields. induction items as [|[k fn] rest IH]; [done|].
  rewrite !bind_cons, IH. simpl. by rewrite Hy.
Qed.

(** X9.  A failure that the handlers dispose of changes nothing in the
    dict: two runs whose readers yield the same cookies, raise nothing
    outside the [Exception] hierarchy and, where [verbose] is true, have
    [str(e)] return normally for the exceptions whose handlers evaluate it,
    return the same dict, in either mode. *)
Theorem caught_failures_leave_the_dict (bc1 bc2 : Readers)
    (domain_name : string) (v1 v2 : bool) (browser_name : option string)
    (w1 w2 : World) :
  all_caught bc1 domain_name →
  all_caught bc2 domain_name →
  (v1 = true → all_printable bc1 domain_name) →
  (v2 = true → all_printable bc2 domain_name) →
  (∀ fn, yielded (bc1 fn domain_name) = yielded (bc2 fn domain_name)) →
  (load_browser_cookies bc1 domain_name v1 browser_name w1).1 =
  (load_browser_cookies bc2 domain_name v2 browser_name w2).1.
Proof.
  intros H1 H2 Hs1 Hs2 Hy. destruct (truthy browser_name) as [s|] eqn:Hb.
  - destruct (mapping_get BROWSER_MAPPING (lower s)) as [fn|] eqn:Hget.
    + rewrite !(load_one _ _ _ _ _ _ _ Hb Hget). simpl.
      assert (escapes v1 (finish (bc1 fn domain_name)) = None) as ->.
      { apply escapes_None. intros e He. split; [by apply (H1 fn)|].
        intros Hv. by apply (Hs1 Hv fn). }
      assert (escapes v2 (finish (bc2 fn domain_name)) = None) as ->.
      { apply escapes_None. intros e He. split; [by apply (H2 fn)|].
        intros Hv. by apply (Hs2 Hv fn). }
      by rewrite Hy.
    + by rewrite !(load_invalid _ _ _ _ _ _ Hb Hget).
  - rewrite !(load_all _ _ _ _ _ Hb).
    destruct (for_browsers_caught bc1 domain_name v1 BROWSER_MAPPING ∅ w1
                (all_caught_Forall _ _ _ _ H1 Hs1)) as (w1' & new1 & -> & _).
    destruct (for_browsers_caught bc2 domain_name v2 BROWSER_MAPPING ∅ w2
                (all_caught_Forall _ _ _ _ H2 Hs2)) as (w2' & new2 & -> & _).
    cbn [fst]. by rewrite (all_yields_ext bc1 bc2 domain_name _ Hy).
Qed.

(** With three readers failing the dict is the one obtained when they
    merely have no cookies. *)
Lemma caught_failures_leave_the_dict_witness :
  (load_browser_cookies mock_failures "google.com" true None w0).1 =
  (load_browser_cookies
     (λ fn d, ok (yielded (mock_failures fn d))) "google.com" true None w0).1.
Proof.
  assert (all_caught mock_failures "google.com") as H1.
  { intros fn e. destruct fn; simpl; intros [= <-]; done. }
  assert (all_caught (λ fn d, ok (yielded (mock_failures fn d))) "google.com")
    as H2.
  { intros fn e. simpl. intros [=]. }
  assert (all_printable (λ fn d, ok (yielded (mock_failures fn d)))
            "google.com") as Hs2.
  { intros fn e. simpl. intros [=]. }
  exact (caught_failures_leave_the_dict mock_failures
           (λ fn d, ok (yielded (mock_failures fn d))) "google.com" true true
           None w0 w0 H1 H2 (λ _, mock_failures_printable) (λ _, Hs2)
           (λ fn, eq_refl)).
Defined.
